(* ===================================================================== *)
(* Alternating least squares (libreco/algorithms/ALS.py): a shallow      *)
(* embedding of __init__, fit, predict and recommend_user of ALS_rating, *)
(* of fit, predict and recommend_user of ALS_ranking and of fit of       *)
(* ALS_ranking_9090, and the properties of these methods.                *)
(*                                                                       *)
(* Numbers.  The arrays of the source hold IEEE doubles; here they are   *)
(* elements of an arbitrary real field F, so every statement is about    *)
(* the exact arithmetic the floating point code approximates.            *)
(* Shapes.  n_users, n_items and n_factors fix the shapes of the factor  *)
(* matrices, so they are parameters of the development.                  *)
(* Errors.  Python exceptions are values of [exn]; a computation that    *)
(* may raise returns a [result].                                         *)
(* ===================================================================== *)

From Stdlib Require Import String.
From HB Require Import structures.
From mathcomp Require Import boot order algebra.

Set Implicit Arguments.
Unset Strict Implicit.
Unset Printing Implicit Defensive.

Import GRing.Theory Num.Theory Order.Theory.
Local Open Scope ring_scope.

(* --------------------------------------------------------------------- *)
(* Exceptions                                                            *)
(* --------------------------------------------------------------------- *)

Inductive exn : Type := IndexError | KeyError | ValueError | LinAlgError.

Inductive result (T : Type) : Type :=
| Ok of T
| Raise of exn.

Arguments Raise {T} e.

Definition bind {A B : Type} (c : result A) (k : A -> result B) : result B :=
  match c with
  | Ok a => k a
  | Raise e => Raise e
  end.

Notation "x <-- c ;; k" := (bind c (fun x => k))
  (at level 61, c at next level, right associativity).

(* try: c  except IndexError: h *)
Definition try_except_IndexError {A : Type} (c : result A) (h : result A) :
  result A :=
  match c with
  | Ok a => Ok a
  | Raise IndexError => h
  | Raise e => Raise e
  end.

Definition is_ok {A : Type} (c : result A) : bool :=
  if c is Ok _ then true else false.

(* a for loop that threads a state and stops at the first exception *)
Fixpoint foldM {S X : Type} (f : S -> X -> result S) (s : S) (xs : seq X) :
  result S :=
  if xs is x :: xs' then s' <-- f s x ;; foldM f s' xs' else Ok s.

(* n rounds of a step that may raise *)
Fixpoint iterM {S : Type} (n : nat) (f : S -> result S) (s : S) : result S :=
  if n is n'.+1 then s' <-- f s ;; iterM n' f s' else Ok s.

Fixpoint mapM {X Y : Type} (f : X -> result Y) (xs : seq X) :
  result (seq Y) :=
  if xs is x :: xs' then y <-- f x ;; ys <-- mapM f xs' ;; Ok (y :: ys)
  else Ok [::].

(* --------------------------------------------------------------------- *)
(* Python dicts, in insertion order, and array indices                   *)
(* --------------------------------------------------------------------- *)

Section Dict.

Variable V : Type.

Definition dict := seq (nat * V).

Definition keys (d : dict) : seq nat := [seq e.1 | e <- d].
Definition values (d : dict) : seq V := [seq e.2 | e <- d].

(* d[key] *)
Fixpoint dict_get (d : dict) (key : nat) : result V :=
  if d is e :: d' then (if e.1 == key then Ok e.2 else dict_get d' key)
  else Raise KeyError.

End Dict.

(* a row number j of an array with n rows *)
Definition index (n j : nat) : result 'I_n :=
  if insub j is Some i then Ok i else Raise IndexError.

(* a Python int as a row number: negative numbers count from the end *)
Definition py_index (n : nat) (j : int) : result 'I_n :=
  match j with
  | Posz m => index n m
  | Negz m => if (m < n)%N then index n (n - m.+1) else Raise IndexError
  end.

(* np.array(list_of_ints) used as an index: the array of an empty list has
   dtype float64, and numpy refuses it as an index with IndexError *)
Definition array_index (n : nat) (js : seq nat) : result (seq 'I_n) :=
  if js is [::] then Raise IndexError else mapM (index n) js.

(* the row and column numbers handed to scipy's csr_matrix with an explicit
   shape: ValueError when one is out of the shape *)
Definition csr_index (n : nat) (js : seq nat) : result (seq 'I_n) :=
  if all (fun j => j < n)%N js then mapM (index n) js else Raise ValueError.

(* --------------------------------------------------------------------- *)
(* numpy on matrices over F                                              *)
(* --------------------------------------------------------------------- *)

Section Numpy.

Variable F : realFieldType.

(* a[idx] for a sequence idx of valid row numbers: the matrix of the
   selected rows, in the order of idx *)
Definition take_rows {n k : nat} (a : 'M[F]_(n, k)) (idx : seq 'I_n) :
  'M[F]_(size idx, k) :=
  \matrix_(r, c) a (tnth (in_tuple idx) r) c.

(* np.sum(np.multiply(np.expand_dims(w, axis=1), a), axis=0):
   row r of a scaled by w[r], the scaled rows added up *)
Definition weighted_row_sum {m k : nat} (w : seq F) (a : 'M[F]_(m, k)) :
  'rV[F]_k :=
  \sum_(r < m) nth 0 w r *: row r a.

(* np.linalg.solve(a, b) for a square a and a one-dimensional b: the x with
   a x = b, LinAlgError when a is singular.  One-dimensional arrays are row
   vectors here, so a x = b reads x *m a^T = b. *)
Definition linalg_solve {k : nat} (a : 'M[F]_k) (b : 'rV[F]_k) :
  result 'rV[F]_k :=
  if a \in unitmx then Ok (b *m (invmx a)^T) else Raise LinAlgError.

(* a[u] = x *)
Definition set_row {n k : nat} (a : 'M[F]_(n, k)) (u : 'I_n) (x : 'rV[F]_k) :
  'M[F]_(n, k) :=
  \matrix_(r, c) if r == u then x 0 c else a r c.

(* np.dot of two one-dimensional arrays *)
Definition dot {k : nat} (x y : 'rV[F]_k) : F := \sum_(c < k) x 0 c * y 0 c.

(* np.clip(x, lo, hi) *)
Definition clip (x lo hi : F) : F := Num.min (Num.max x lo) hi.

(* symmetric positive definite *)
Definition symmetric {k : nat} (a : 'M[F]_k) : Prop := a^T = a.

Definition quad {k : nat} (a : 'M[F]_k) (x : 'rV[F]_k) : F :=
  (x *m a *m x^T) 0 0.

Definition posdef {k : nat} (a : 'M[F]_k) : Prop :=
  forall x : 'rV[F]_k, x != 0 -> 0 < quad a x.

Definition spd {k : nat} (a : 'M[F]_k) : Prop := symmetric a /\ posdef a.

End Numpy.

(* --------------------------------------------------------------------- *)
(* The dataset and the trained model                                     *)
(* --------------------------------------------------------------------- *)

Section Model.

Variable F : realFieldType.
Variables n_users n_items n_factors : nat.

(* dataset.train_user maps a user to the dict {item: label} of its
   interactions, dataset.train_item an item to {user: label} *)
Record dataset : Type := Dataset {
  global_mean : F;
  train_user : dict (dict F);
  train_item : dict (dict F)
}.

(* the attributes __init__ stores; n_factors is a parameter of the section *)
Record params : Type := Params {
  n_epochs : nat;
  reg : F;
  task : string;
  seed : nat
}.

(* the attributes fit adds (X and Y in ALS_ranking_9090) *)
Record model : Type := Model {
  hyper : params;
  data : dataset;
  default_prediction : F;
  pu : 'M[F]_(n_users, n_factors);
  qi : 'M[F]_(n_items, n_factors)
}.

(* what fit prints every few epochs, by the evaluation it calls: rmse,
   MAP_at_k and accuracy come from the evaluate module and only read the
   model, so a call is recorded as an event *)
Inductive report : Type :=
| Report_rmse of nat
| Report_MAP_at_k of nat
| Report_accuracy of nat.

Definition __init__ (n_epochs : nat) (reg : F) (task : string) (seed : nat) :
  result params :=
  Ok (Params n_epochs reg task seed).

(* ------------------------------------------------------------------- *)
(* class ALS_rating                                                    *)
(* ------------------------------------------------------------------- *)

(* the matrix yy_reg (xx_reg in the item loop) *)
Definition yy_reg {m : nat} (reg : F) (qi : 'M[F]_(m, n_factors))
    (u_items : seq 'I_m) : 'M[F]_n_factors :=
  (take_rows qi u_items)^T *m take_rows qi u_items + reg *: 1%:M.

(* the body of `for u in dataset.train_user` up to the solve: the row
   number that is assigned and the solution assigned to it.  The body of
   `for i in dataset.train_item` is the same text with train_item for
   train_user and pu for qi, so both loops are instances of this function:
   nbrs_of is the dict that is iterated, other the matrix that is read. *)
Definition ALS_rating_solve_entity {n m : nat} (reg : F)
    (nbrs_of : dict (dict F)) (other : 'M[F]_(m, n_factors)) (u : nat) :
  result ('I_n * 'rV[F]_n_factors) :=
  nbrs <-- dict_get nbrs_of u ;;
  let u_items := keys nbrs in
  let u_labels := values nbrs in
  idx <-- array_index m u_items ;;
  let yy_reg := yy_reg reg other idx in
  let r_y := weighted_row_sum u_labels (take_rows other idx) in
  x <-- linalg_solve yy_reg r_y ;;
  u' <-- index n u ;;
  Ok (u', x).

Definition ALS_rating_update {n m : nat} (reg : F)
    (nbrs_of : dict (dict F)) (other : 'M[F]_(m, n_factors))
    (own : 'M[F]_(n, n_factors)) (u : nat) : result 'M[F]_(n, n_factors) :=
  ux <-- ALS_rating_solve_entity reg nbrs_of other u ;;
  Ok (set_row own ux.1 ux.2).

(* the two inner loops of one epoch *)
Definition ALS_rating_user_sweep (reg : F) (d : dataset)
    (qi : 'M[F]_(n_items, n_factors)) (pu : 'M[F]_(n_users, n_factors)) :
  result 'M[F]_(n_users, n_factors) :=
  foldM (ALS_rating_update reg (train_user d) qi) pu (keys (train_user d)).

Definition ALS_rating_item_sweep (reg : F) (d : dataset)
    (pu : 'M[F]_(n_users, n_factors)) (qi : 'M[F]_(n_items, n_factors)) :
  result 'M[F]_(n_items, n_factors) :=
  foldM (ALS_rating_update reg (train_item d) pu) qi (keys (train_item d)).

Definition factors : Type :=
  ('M[F]_(n_users, n_factors) * 'M[F]_(n_items, n_factors))%type.

Definition ALS_rating_epoch (reg : F) (d : dataset) (f : factors) :
  result factors :=
  pu' <-- ALS_rating_user_sweep reg d f.2 f.1 ;;
  qi' <-- ALS_rating_item_sweep reg d pu' f.2 ;;
  Ok (pu', qi').

Definition ALS_rating_report (verbose : int) (epoch : nat) (task : string) :
  seq report :=
  if (0 < verbose) && (epoch %% 5 == 0)%N && String.eqb task "rating"
  then [:: Report_rmse epoch]
  else if (0 < verbose) && (epoch %% 5 == 0)%N && String.eqb task "ranking"
  then [:: Report_MAP_at_k epoch]
  else [::].

Definition ALS_rating_loop_body (h : params) (d : dataset) (verbose : int)
    (st : factors * seq report) (epoch : nat) :
  result (factors * seq report) :=
  f' <-- ALS_rating_epoch (reg h) d st.1 ;;
  Ok (f', st.2 ++ ALS_rating_report verbose epoch (task h)).

(* truncated_normal comes from utils.initializers and draws from the
   generator that np.random.seed(self.seed) has just reset: the two draws
   are functions of the seed *)
Variable truncated_normal_pu : nat -> 'M[F]_(n_users, n_factors).
Variable truncated_normal_qi : nat -> 'M[F]_(n_items, n_factors).

Definition ALS_rating_fit (h : params) (d : dataset) (verbose : int) :
  result (model * seq report) :=
  let pu0 := truncated_normal_pu (seed h) in
  let qi0 := truncated_normal_qi (seed h) in
  st <-- foldM (ALS_rating_loop_body h d verbose) ((pu0, qi0), [::])
              (iota 1 (n_epochs h)) ;;
  Ok (Model h d (global_mean d) st.1.1 st.1.2, st.2).

(* self.pu[u], self.qi[i] with Python ints, and the dot product of the rows;
   IndexError when one of them is out of range *)
Definition factor_dot (m : model) (u i : int) : result F :=
  u' <-- py_index n_users u ;;
  i' <-- py_index n_items i ;;
  Ok (dot (row u' (pu m)) (row i' (qi m))).

Definition ALS_rating_predict (m : model) (u i : int) : result F :=
  try_except_IndexError
    (pred <-- factor_dot m u i ;;
     let pred := clip pred 1 5 in
     Ok pred)
    (Ok (default_prediction m)).

(* ------------------------------------------------------------------- *)
(* recommend_user, the same text in the three classes                  *)
(* ------------------------------------------------------------------- *)

(* a one-dimensional array as a list *)
Definition to_list {n : nat} (v : 'rV[F]_n) : seq F :=
  [seq v 0 c | c <- enum 'I_n].

(* s[:n] *)
Definition slice_to {T : Type} (n : int) (s : seq T) : seq T :=
  match n with
  | Posz m => take m s
  | Negz m => take (size s - m.+1) s
  end.

(* d[key] = v *)
Fixpoint dict_set {V : Type} (d : dict V) (key : nat) (v : V) : dict V :=
  if d is e :: d' then
    (if e.1 == key then (key, v) :: d' else e :: dict_set d' key v)
  else [:: (key, v)].

(* {j: r for j, r in items} *)
Definition dict_of_items {V : Type} (items : seq (nat * V)) : dict V :=
  foldl (fun d e => dict_set d e.1 e.2) [::] items.

(* the state of numpy's global generator *)
Variable rng : Type.

(* list(s) for a set s of ints, given by its elements in increasing order:
   the order in which CPython iterates over the set *)
Variable set_order : seq nat -> seq nat.

(* np.random.choice(a, size, replace=False, p=p) *)
Variable random_choice :
  seq nat -> int -> seq F -> rng -> result (seq nat) * rng.

(* the first half of recommend_user: the items the user has no label for,
   each with its score *)
Definition unlabled_rank (predict : model -> int -> int -> result F)
    (m : model) (u : nat) : result (seq (nat * F)) :=
  nbrs <-- dict_get (train_user (data m)) u ;;
  let unlabled_items :=
    set_order [seq j <- iota 0 n_items | j \notin keys nbrs] in
  if has (fun j => n_items < j)%N unlabled_items then
    mapM (fun j => r <-- predict m (Posz u) (Posz j) ;; Ok (j, r))
         [seq j <- iota 0 n_items | j \notin keys nbrs]
  else
    u' <-- index n_users u ;;
    idx <-- mapM (index n_items) unlabled_items ;;
    let pred := row u' (pu m) *m (take_rows (qi m) idx)^T in
    let pred := map_mx (fun x => clip x 1 5%:R) pred in
    Ok (zip unlabled_items (to_list pred)).

Definition recommend_user (predict : model -> int -> int -> result F)
    (m : model) (u : nat) (n_rec : int) (random_rec : bool) (g : rng) :
  result (seq (nat * F)) * rng :=
  match unlabled_rank predict m u with
  | Raise e => (Raise e, g)
  | Ok rank =>
    if random_rec then
      let item_pred_dict := dict_of_items [seq e <- rank | 4%:R <= e.2] in
      let item_list := keys item_pred_dict in
      let pred_list := values item_pred_dict in
      let p := [seq x / (\sum_(y <- pred_list) y) | x <- pred_list] in
      let: (item_candidates, g') := random_choice item_list n_rec p g in
      (items <-- item_candidates ;;
       mapM (fun item => r <-- dict_get item_pred_dict item ;; Ok (item, r))
            items,
       g')
    else
      let rank := sort (fun a b => b.2 <= a.2) rank in
      (Ok (slice_to n_rec rank), g)
  end.

Definition ALS_rating_recommend_user := recommend_user ALS_rating_predict.

(* ------------------------------------------------------------------- *)
(* class ALS_ranking: predict and recommend_user                       *)
(* ------------------------------------------------------------------- *)

(* np.exp *)
Variable exp : F -> F.

Definition sigmoid (x : F) : F := 1 / (1 + exp (- x)).

Definition ALS_ranking_predict (m : model) (u i : int) : result F :=
  try_except_IndexError
    (d <-- factor_dot m u i ;;
     let prob := sigmoid d in
     let pred := if 2%:R^-1 <= prob then 1 else 0 in
     Ok pred)
    (Ok (default_prediction m)).

Definition ALS_ranking_recommend_user := recommend_user ALS_ranking_predict.

(* ------------------------------------------------------------------- *)
(* class ALS_ranking_9090: fit                                         *)
(* ------------------------------------------------------------------- *)

(* csr_matrix((vals, (idx, idx)), shape=[n, n]): entries with the same
   position are added *)
Definition csr_diag {n : nat} (idx : seq 'I_n) (vals : seq F) : 'M[F]_n :=
  \sum_(e <- zip idx vals) e.2 *: delta_mx e.1 e.1.

(* csr_matrix((vals, (idx, zeros)), shape=[n, 1]) *)
Definition csr_col {n : nat} (idx : seq 'I_n) (vals : seq F) : 'cV[F]_n :=
  \sum_(e <- zip idx vals) e.2 *: delta_mx e.1 0.

(* the matrix ycy_reg (xcx_reg in the item loop) *)
Definition ycy_reg {m : nat} (reg : F) (Y : 'M[F]_(m, n_factors))
    (YtY : 'M[F]_n_factors) (Cu : 'M[F]_m) : 'M[F]_n_factors :=
  YtY + Y^T *m (Cu *m Y) + reg *: 1%:M.

(* the body of `for u in dataset.train_user` up to the solve; the body of
   `for i in dataset.train_item` is the same text with X and XtX for Y and
   YtY *)
Definition ALS_ranking_9090_solve_entity {n m : nat} (reg : F)
    (nbrs_of : dict (dict F)) (Y : 'M[F]_(m, n_factors))
    (YtY : 'M[F]_n_factors) (u : nat) :
  result ('I_n * 'rV[F]_n_factors) :=
  nbrs <-- dict_get nbrs_of u ;;
  let Cu_indices := keys nbrs in
  let labels := values nbrs in
  let Cu_values := [seq l * 10%:R | l <- labels] in
  let pu_indices := keys nbrs in
  let pu_values := nseq (size pu_indices) (1 : F) in
  ci <-- csr_index m Cu_indices ;;
  let Cu := csr_diag ci Cu_values in
  pi <-- csr_index m pu_indices ;;
  let pu := csr_col pi pu_values in
  let ycy_reg := ycy_reg reg Y YtY Cu in
  let cupu := (Cu *m pu)^T in
  let ycp := (Y^T *m cupu^T)^T in
  x <-- linalg_solve ycy_reg ycp ;;
  u' <-- index n u ;;
  Ok (u', x).

Definition ALS_ranking_9090_update {n m : nat} (reg : F)
    (nbrs_of : dict (dict F)) (Y : 'M[F]_(m, n_factors))
    (YtY : 'M[F]_n_factors) (X : 'M[F]_(n, n_factors)) (u : nat) :
  result 'M[F]_(n, n_factors) :=
  ux <-- ALS_ranking_9090_solve_entity reg nbrs_of Y YtY u ;;
  Ok (set_row X ux.1 ux.2).

Definition ALS_ranking_9090_epoch (reg : F) (d : dataset) (f : factors) :
  result factors :=
  let X := f.1 in
  let Y := f.2 in
  let YtY := Y^T *m Y in
  X' <-- foldM (ALS_ranking_9090_update reg (train_user d) Y YtY) X
              (keys (train_user d)) ;;
  let XtX := X'^T *m X' in
  Y' <-- foldM (ALS_ranking_9090_update reg (train_item d) X' XtX) Y
              (keys (train_item d)) ;;
  Ok (X', Y').

Definition ALS_ranking_9090_report (verbose : int) (epoch : nat)
    (task : string) : seq report :=
  if (0 < verbose) && (epoch %% 1 == 0)%N && String.eqb task "rating"
  then [:: Report_rmse epoch]
  else if (0 < verbose) && (epoch %% 1 == 0)%N && String.eqb task "ranking"
  then [:: Report_accuracy epoch]
  else [::].

Definition ALS_ranking_9090_loop_body (h : params) (d : dataset)
    (verbose : int) (st : factors * seq report) (epoch : nat) :
  result (factors * seq report) :=
  f' <-- ALS_ranking_9090_epoch (reg h) d st.1 ;;
  Ok (f', st.2 ++ ALS_ranking_9090_report verbose epoch (task h)).

Definition ALS_ranking_9090_fit (h : params) (d : dataset) (verbose : int) :
  result (model * seq report) :=
  let X0 := truncated_normal_pu (seed h) in
  let Y0 := truncated_normal_qi (seed h) in
  st <-- foldM (ALS_ranking_9090_loop_body h d verbose) ((X0, Y0), [::])
              (iota 1 (n_epochs h)) ;;
  Ok (Model h d (global_mean d) st.1.1 st.1.2, st.2).

(* ------------------------------------------------------------------- *)
(* the vocabulary of the statements                                    *)
(* ------------------------------------------------------------------- *)

(* a row assignment whose row number and value come from solve *)
Definition sweep_step {n k : nat} (solve : nat -> result ('I_n * 'rV[F]_k))
    (a : 'M[F]_(n, k)) (u : nat) : result 'M[F]_(n, k) :=
  ux <-- solve u ;; Ok (set_row a ux.1 ux.2).

(* the neighbours of an entity, their row numbers checked *)
Definition erase {m : nat} (nb : seq ('I_m * F)) : dict F :=
  [seq (val e.1, e.2) | e <- nb].

(* (Q[I]^T Q[I] + reg I) x = sum_(i in I) r_i Q[i] *)
Definition ridge_system {m : nat} (reg : F) (Q : 'M[F]_(m, n_factors))
    (nb : seq ('I_m * F)) (x : 'rV[F]_n_factors) : Prop :=
  ((take_rows Q (unzip1 nb))^T *m take_rows Q (unzip1 nb) + reg *: 1%:M)
    *m x^T
  = (\sum_(e <- nb) e.2 *: row e.1 Q)^T.

(* (Q^T Q + sum_(i in I) c_i Q[i]^T Q[i] + reg I) x = sum_(i in I) c_i Q[i],
   with c_i = 10 l_i *)
Definition weighted_ridge_system {m : nat} (reg : F)
    (Q : 'M[F]_(m, n_factors)) (nb : seq ('I_m * F))
    (x : 'rV[F]_n_factors) : Prop :=
  (Q^T *m Q
   + \sum_(e <- nb) (10%:R * e.2) *: ((row e.1 Q)^T *m row e.1 Q)
   + reg *: 1%:M) *m x^T
  = (\sum_(e <- nb) (10%:R * e.2) *: row e.1 Q)^T.

(* a dict of dicts whose keys are row numbers below n and whose inner keys
   are row numbers below m; no inner dict is empty *)
Definition wf_dict (n m : nat) (d : dict (dict F)) : bool :=
  uniq (keys d) &&
  all (fun e => [&& (e.1 < n)%N, ~~ nilp e.2, uniq (keys e.2) &
                 all (fun x => x.1 < m)%N e.2]) d.

Definition wf_dataset (d : dataset) : bool :=
  wf_dict n_users n_items (train_user d) &&
  wf_dict n_items n_users (train_item d).

Definition dicts_of_dicts (d : dataset) : bool :=
  [&& uniq (keys (train_user d)), uniq (keys (train_item d)),
      all (fun e => uniq (keys e.2)) (train_user d) &
      all (fun e => uniq (keys e.2)) (train_item d)].

Definition nonneg_labels (d : dict (dict F)) : bool :=
  all (fun e => all (fun x => 0 <= x.2) e.2) d.

(* the ints Python accepts as a row number of an array with n rows, and the
   row they name *)
Definition py_in_range (n : nat) (j : int) : bool :=
  (- (Posz n) <= j) && (j < Posz n).

Definition py_wrap (n : nat) (j : int) : int :=
  if j < 0 then Posz n + j else j.

(* set(range(n_items)) - set(train_user[u]) *)
Definition unlabeled (nbrs : dict F) : seq nat :=
  [seq j <- iota 0 n_items | j \notin keys nbrs].

Definition clipped_score (m : model) (u : 'I_n_users) (i : 'I_n_items) : F :=
  clip (dot (row u (pu m)) (row i (qi m))) 1 5%:R.

(* sort(key=itemgetter(1), reverse=True) *)
Definition by_score_desc : rel (nat * F) := fun a b => b.2 <= a.2.

(* p = [p / np.sum(pred_list) for p in pred_list] *)
Definition normalize (pred_list : seq F) : seq F :=
  [seq x / (\sum_(y <- pred_list) y) | x <- pred_list].

(* rank restricted to the scores at or above 4 *)
Definition high_scores (rank : seq (nat * F)) : seq (nat * F) :=
  [seq e <- rank | 4%:R <= e.2].

Definition trained_factors (r : result (model * seq report)) : result factors :=
  ml <-- r ;; Ok (pu ml.1, qi ml.1).

(* the loss of the row x of an entity with the neighbours nb: the squared
   errors of the labels it predicts, and the ridge penalty *)
Definition ridge_loss {m : nat} (reg : F) (Q : 'M[F]_(m, n_factors))
    (nb : seq ('I_m * F)) (x : 'rV[F]_n_factors) : F :=
  \sum_(e <- nb) (e.2 - dot x (row e.1 Q)) ^+ 2 + reg * dot x x.

(* the loss that the implicit variant minimises for the row x of an entity
   with the neighbours nb: every row of the other side counts with target 0
   and weight 1; a neighbour counts once more with its confidence
   c = 10 l, through c (x.Q[i])^2 - 2 c (x.Q[i]) *)
Definition weighted_loss {m : nat} (reg : F) (Q : 'M[F]_(m, n_factors))
    (nb : seq ('I_m * F)) (x : 'rV[F]_n_factors) : F :=
  \sum_(i < m) dot x (row i Q) ^+ 2
  + \sum_(e <- nb) ((10%:R * e.2) * dot x (row e.1 Q) ^+ 2
                    - (10%:R * e.2) * dot x (row e.1 Q) *+ 2)
  + reg * dot x x.

End Model.

(* ===================================================================== *)
(* A small dataset: one user, three items, one factor; user 0 has rated   *)
(* item 2 only, with label 3.                                            *)
(* ===================================================================== *)

Section Example.

Variable F : realFieldType.

Definition ex_dataset : dataset F :=
  Dataset 3 [:: (0%N, [:: (2%N, 3)])] [:: (2%N, [:: (0%N, 3)])].

Definition ex_params (t : string) : params F := Params 1 1 t 42.

(* the user row is (1), the item rows are the entries of vals *)
Definition ex_pu : 'M[F]_(1, 1) := const_mx 1.

Definition ex_qi (vals : seq F) : 'M[F]_(3, 1) :=
  \matrix_(i, j) nth 0 vals i.

Definition ex_model (vals : seq F) : model F 1 3 1 :=
  Model (ex_params "rating") ex_dataset 3 ex_pu (ex_qi vals).

(* a generator that always draws the first candidates *)
Definition ex_choice (a : seq nat) (n : int) (p : seq F) (g : unit) :
  result (seq nat) * unit :=
  (match n with
   | Posz k => if (k <= size a)%N then Ok (take k a) else Raise ValueError
   | Negz _ => Raise ValueError
   end, g).

End Example.

(* the entity of the implicit variant with the single neighbour 0, whose item
   row is (1), the label -1 and reg = 1 *)
Definition neg_label_matrix : 'M[rat]_1 :=
  let Y : 'M[rat]_(1, 1) := 1%:M in
  ycy_reg 1 Y (Y^T *m Y) (csr_diag [:: ord0] [seq l * 10%:R | l <- [:: -1]]).

(* ===================================================================== *)
(* class ALS_ranking: fit                                                *)
(* ===================================================================== *)

Section Ranking.

Variable F : realFieldType.
Variables n_users n_items n_factors : nat.

(* the interactions as three parallel arrays: dataset.train_user_implicit,
   dataset.train_item_implicit and dataset.train_label_implicit *)
Record implicit_arrays : Type := Implicit {
  train_user_implicit : seq nat;
  train_item_implicit : seq nat;
  train_label_implicit : seq F
}.

(* np.where(a == x)[0]: the positions of x in a *)
Definition np_where_eq (a : seq nat) (x : nat) : seq nat :=
  [seq p <- iota 0 (size a) | nth 0%N a p == x].

(* a[ps] for an array ps of positions: IndexError when one is out of a *)
Definition np_take {T : Type} (x0 : T) (a : seq T) (ps : seq nat) :
  result (seq T) :=
  mapM (fun p => if (p < size a)%N then Ok (nth x0 a p)
                 else Raise IndexError) ps.

(* np.linalg.inv(a).dot(b) for a one-dimensional b: LinAlgError when a is
   singular *)
Definition linalg_inv_dot {k : nat} (a : 'M[F]_k) (b : 'rV[F]_k) :
  result 'rV[F]_k :=
  if a \in unitmx then Ok (invmx a *m b^T)^T else Raise LinAlgError.

(* the body of `for u in dataset.train_user` up to the product with the
   inverse; the body of `for i in dataset.train_item` is the same text with
   the two arrays of numbers exchanged and pu for qi: own is the array that
   is searched for the entity, others the array its neighbours are read
   from *)
Definition ALS_ranking_solve_entity {n m : nat} (reg : F)
    (own others : seq nat) (labels : seq F) (other : 'M[F]_(m, n_factors))
    (u : nat) : result ('I_n * 'rV[F]_n_factors) :=
  let where_u := np_where_eq own u in
  u_items <-- np_take 0%N others where_u ;;
  u_labels <-- np_take 0 labels where_u ;;
  idx <-- mapM (index m) u_items ;;
  let yy_reg := yy_reg reg other idx in
  let r_y := weighted_row_sum u_labels (take_rows other idx) in
  x <-- linalg_inv_dot yy_reg r_y ;;
  u' <-- index n u ;;
  Ok (u', x).

Definition ALS_ranking_update {n m : nat} (reg : F)
    (own others : seq nat) (labels : seq F) (other : 'M[F]_(m, n_factors))
    (a : 'M[F]_(n, n_factors)) (u : nat) : result 'M[F]_(n, n_factors) :=
  ux <-- ALS_ranking_solve_entity reg own others labels other u ;;
  Ok (set_row a ux.1 ux.2).

Definition ALS_ranking_epoch (reg : F) (d : dataset F) (ia : implicit_arrays)
    (f : factors F n_users n_items n_factors) :
  result (factors F n_users n_items n_factors) :=
  pu' <-- foldM (ALS_ranking_update reg (train_user_implicit ia)
                   (train_item_implicit ia) (train_label_implicit ia) f.2)
                f.1 (keys (train_user d)) ;;
  qi' <-- foldM (ALS_ranking_update reg (train_item_implicit ia)
                   (train_user_implicit ia) (train_label_implicit ia) pu')
                f.2 (keys (train_item d)) ;;
  Ok (pu', qi').

(* the reports of ALS_ranking.fit are those of ALS_ranking_9090.fit, the
   same text *)
Definition ALS_ranking_loop_body (h : params F) (d : dataset F)
    (ia : implicit_arrays) (verbose : int)
    (st : factors F n_users n_items n_factors * seq report) (epoch : nat) :
  result (factors F n_users n_items n_factors * seq report) :=
  f' <-- ALS_ranking_epoch (reg h) d ia st.1 ;;
  Ok (f', st.2 ++ ALS_ranking_9090_report verbose epoch (task h)).

Variable truncated_normal_pu : nat -> 'M[F]_(n_users, n_factors).
Variable truncated_normal_qi : nat -> 'M[F]_(n_items, n_factors).

Definition ALS_ranking_fit (h : params F) (d : dataset F)
    (ia : implicit_arrays) (verbose : int) :
  result (model F n_users n_items n_factors * seq report) :=
  let pu0 := truncated_normal_pu (seed h) in
  let qi0 := truncated_normal_qi (seed h) in
  st <-- foldM (ALS_ranking_loop_body h d ia verbose) ((pu0, qi0), [::])
              (iota 1 (n_epochs h)) ;;
  Ok (Model h d (global_mean d) st.1.1 st.1.2, st.2).

(* the neighbours of the entity u in the arrays, as (number, label) pairs *)
Definition implicit_neighbours (own others : seq nat) (labels : seq F)
    (u : nat) : dict F :=
  [seq (nth 0%N others p, nth 0 labels p) | p <- np_where_eq own u].

(* the three arrays have one length, the numbers of the users are below
   n_users and those of the items below n_items *)
Definition wf_arrays (ia : implicit_arrays) : bool :=
  [&& size (train_item_implicit ia) == size (train_user_implicit ia),
      size (train_label_implicit ia) == size (train_user_implicit ia),
      all (fun u => u < n_users)%N (train_user_implicit ia)
    & all (fun i => i < n_items)%N (train_item_implicit ia)].

End Ranking.

(* ===================================================================== *)
(* Further small inputs                                                  *)
(* ===================================================================== *)

Section Inputs.

Variable F : realFieldType.

(* user 0 is a key of train_user and has rated nothing *)
Definition ex_dataset_lonely : dataset F := Dataset 3 [:: (0%N, [::])] [::].

(* user 0 has rated item 7, and there are three item rows *)
Definition ex_dataset_stray : dataset F :=
  Dataset 3 [:: (0%N, [:: (7%N, 3)])] [::].

(* user 1 is a key of train_user, and there is one user row *)
Definition ex_dataset_late : dataset F :=
  Dataset 3 [:: (1%N, [:: (2%N, 3)])] [::].

Definition ex_model_late : model F 1 3 1 :=
  Model (ex_params F "rating") ex_dataset_late 3 (ex_pu F)
        (ex_qi [:: 1; 1; 1]).

(* the interaction of ex_dataset as three parallel arrays, and no
   interaction at all *)
Definition ex_arrays : implicit_arrays F := Implicit [:: 0%N] [:: 2%N] [:: 3].

Definition ex_arrays_empty : implicit_arrays F := Implicit [::] [::] [::].

(* a stand-in for np.exp: positive, 1 at 0 and increasing *)
Definition ex_exp (x : F) : F := if 0 <= x then 1 + x else (1 - x)^-1.

End Inputs.

(* ===================================================================== *)
(* Properties                                                            *)
(* ===================================================================== *)

Section NumpyTheory.

Variable F : realFieldType.

(* ----- algebra of the definitions ----- *)

Lemma quad_dot k (x : 'rV[F]_k) : quad 1%:M x = dot x x.
Proof.
rewrite /quad /dot mulmx1 mxE; apply: eq_bigr => c _.
by rewrite mxE.
Qed.

Lemma dot_self_ge0 k (x : 'rV[F]_k) : 0 <= dot x x.
Proof. by apply: sumr_ge0 => c _; rewrite -expr2 sqr_ge0. Qed.

Lemma dot_self_gt0 k (x : 'rV[F]_k) : x != 0 -> 0 < dot x x.
Proof.
move=> xn0; rewrite lt_neqAle dot_self_ge0 andbT eq_sym.
apply: contra xn0 => /eqP d0.
apply/eqP/rowP => c; rewrite mxE.
have sq_ge0 (i : 'I_k) : predT i -> 0 <= x 0 i * x 0 i.
  by move=> _; rewrite -expr2 sqr_ge0.
have /eqP := psumr_eq0P sq_ge0 d0 (i := c) isT.
by rewrite mulf_eq0 orbb => /eqP.
Qed.

Lemma quadD k (a b : 'M[F]_k) x : quad (a + b) x = quad a x + quad b x.
Proof. by rewrite /quad mulmxDr mulmxDl mxE. Qed.

Lemma quadZ k (c : F) (a : 'M[F]_k) x : quad (c *: a) x = c * quad a x.
Proof. by rewrite /quad -scalemxAr -scalemxAl mxE. Qed.

Lemma quad_gram m k (a : 'M[F]_(m, k)) (x : 'rV[F]_k) :
  quad (a^T *m a) x = dot (x *m a^T) (x *m a^T).
Proof.
rewrite /quad /dot mulmxA -mulmxA -[a *m x^T]trmxK trmx_mul trmxK mxE.
by apply: eq_bigr => c _; rewrite [in X in _ * X]mxE.
Qed.

Lemma posdef_unit k (a : 'M[F]_k) : posdef a -> a \in unitmx.
Proof.
move=> pd; rewrite -row_free_unit -kermx_eq0.
apply/negPn/negP => /rowV0Pn [v /submxP [w vw] vn0].
have va : v *m a = 0 by rewrite vw -mulmxA mulmx_ker mulmx0.
by have := pd v vn0; rewrite /quad va mul0mx mxE ltxx.
Qed.

Lemma linalg_solve_posdef k (a : 'M[F]_k) b :
  posdef a -> exists2 x, linalg_solve a b = Ok x & x *m a^T = b.
Proof.
move=> /posdef_unit ua; exists (b *m (invmx a)^T).
  by rewrite /linalg_solve ua.
by rewrite -mulmxA -trmx_mul mulmxV // trmx1 mulmx1.
Qed.

Lemma linalg_solveP k (a : 'M[F]_k) b x :
  linalg_solve a b = Ok x -> a \in unitmx /\ x *m a^T = b.
Proof.
rewrite /linalg_solve; case: ifP => // ua [<-]; split=> //.
by rewrite -mulmxA -trmx_mul mulmxV // trmx1 mulmx1.
Qed.

End NumpyTheory.

Section Theory.

Variable F : realFieldType.
Variables n_users n_items n_factors : nat.
Variable truncated_normal_pu : nat -> 'M[F]_(n_users, n_factors).
Variable truncated_normal_qi : nat -> 'M[F]_(n_items, n_factors).
Variable rng : Type.
Variable set_order : seq nat -> seq nat.
Variable random_choice :
  seq nat -> int -> seq F -> rng -> result (seq nat) * rng.
Variable exp : F -> F.

Local Notation dataset := (dataset F).
Local Notation params := (params F).
Local Notation model := (model F n_users n_items n_factors).
Local Notation factors := (factors F n_users n_items n_factors).
Local Notation wf_dataset := (@wf_dataset F n_users n_items).
Local Notation unlabeled := (@unlabeled F n_items).
Local Notation by_score_desc := (@by_score_desc F).
Local Notation ALS_rating_fit :=
  (ALS_rating_fit truncated_normal_pu truncated_normal_qi).
Local Notation ALS_ranking_9090_fit :=
  (ALS_ranking_9090_fit truncated_normal_pu truncated_normal_qi).
Local Notation unlabled_rank := (unlabled_rank set_order).
Local Notation recommend_user := (recommend_user set_order random_choice).
Local Notation ALS_rating_recommend_user :=
  (ALS_rating_recommend_user set_order random_choice).
Local Notation ALS_ranking_recommend_user :=
  (ALS_ranking_recommend_user set_order random_choice exp).
Local Notation sigmoid := (sigmoid exp).
Local Notation high_scores := (@high_scores F).
Local Notation normalize := (@normalize F).
Local Notation nonneg_labels := (@nonneg_labels F).
Local Notation dicts_of_dicts := (@dicts_of_dicts F).
Local Notation wf_dict := (@wf_dict F).
Local Notation ALS_rating_predict :=
  (@ALS_rating_predict F n_users n_items n_factors).
Local Notation ALS_ranking_predict :=
  (@ALS_ranking_predict F n_users n_items n_factors exp).

(* ----- indices and dicts ----- *)

Lemma indexP n j (i : 'I_n) : index n j = Ok i -> val i = j.
Proof. by rewrite /index; case: insubP => // i' _ <- [<-]. Qed.

Lemma index_ok n j : (j < n)%N -> exists2 i : 'I_n, index n j = Ok i & val i = j.
Proof.
move=> ltjn; exists (Ordinal ltjn) => //.
by rewrite /index; case: insubP => [i' _ vi|]; rewrite ?ltjn //; congr Ok; exact: val_inj.
Qed.

Lemma index_raise n j : (n <= j)%N -> index n j = Raise IndexError.
Proof. by rewrite /index; case: insubP => // i'; rewrite ltnNge => /[swap] _ /negbTE ->. Qed.

Lemma mapM_indexP n js (idx : seq 'I_n) :
  mapM (index n) js = Ok idx -> [seq val i | i <- idx] = js.
Proof.
elim: js idx => [|j js IH] idx /=; first by case=> <-.
case ej: (index n j) => [i|] //=.
case ejs: (mapM (index n) js) => [idx'|] //= [<-] /=.
by rewrite (indexP ej) (IH _ ejs).
Qed.

Lemma mapM_index_ok n js :
  all (fun j => j < n)%N js ->
  exists2 idx : seq 'I_n, mapM (index n) js = Ok idx & [seq val i | i <- idx] = js.
Proof.
elim: js => [|j js IH] /=; first by exists [::].
case/andP=> /index_ok [i -> vi] /IH [idx -> vidx].
by exists (i :: idx); rewrite //= vi vidx.
Qed.

Lemma dict_get_in (V : eqType) (d : dict V) u v :
  uniq (keys d) -> (u, v) \in d -> dict_get d u = Ok v.
Proof.
elim: d => [|[u' v'] d IH] //=; rewrite inE => /andP [nin ud].
case/orP=> [/eqP [-> ->]|uvd]; first by rewrite eqxx.
case: eqP => [eu|_]; last exact: IH.
by move: nin; rewrite eu; case/negP; apply/mapP; exists (u, v).
Qed.

(* ----- one sweep: a loop of row assignments ----- *)

Section Sweep.

Variables (n k : nat) (solve : nat -> result ('I_n * 'rV[F]_k)).
Hypothesis solve_row : forall u u' x, solve u = Ok (u', x) -> val u' = u.

Local Notation sweep_step := (sweep_step solve).

Lemma row_set_row (a : 'M[F]_(n, k)) u x r :
  row r (set_row a u x) = if r == u then x else row r a.
Proof. by apply/rowP => c; rewrite !mxE; case: ifP => _; rewrite ?mxE. Qed.

Lemma sweepP us (a a' : 'M[F]_(n, k)) :
  uniq us -> foldM sweep_step a us = Ok a' ->
  (forall u, u \in us ->
     exists u' x, solve u = Ok (u', x) /\ row u' a' = x) /\
  (forall r : 'I_n, val r \notin us -> row r a' = row r a).
Proof.
elim: us a => [|u us IH] a /=; first by move=> _ [<-]; split.
case/andP=> nin uus; rewrite /sweep_step.
case es: (solve u) => [[u' x]|] //= /(IH _ uus) [Hin Hout]; split.
  move=> w; rewrite inE; case/orP=> [/eqP ->|/Hin //].
  exists u', x; split=> //.
  by rewrite Hout ?row_set_row ?eqxx // (solve_row es).
move=> r; rewrite inE negb_or => /andP [ru /Hout ->].
rewrite row_set_row; case: eqP => // eru.
by move: ru; rewrite eru (solve_row es) eqxx.
Qed.

Lemma sweep_ok us (a : 'M[F]_(n, k)) :
  (forall u, u \in us -> is_ok (solve u)) ->
  exists a', foldM sweep_step a us = Ok a'.
Proof.
elim: us a => [|u us IH] a ok_us /=; first by exists a.
have := ok_us u; rewrite inE eqxx /sweep_step => /(_ isT).
case: (solve u) => [ux|] //= _.
by apply: IH => w win; apply: ok_us; rewrite inE win orbT.
Qed.

End Sweep.

Lemma mem_zip (S T : eqType) (s : seq S) (t : seq T) a b :
  (a, b) \in zip s t -> a \in s /\ b \in t.
Proof.
elim: s t => [|x s IH] [|y t] //=; rewrite !inE.
case/orP=> [/eqP [-> ->]|/IH [-> ->]]; first by rewrite !eqxx.
by rewrite !orbT.
Qed.

(* ----- the normal equations ----- *)

Lemma quad_sum k (T : Type) (s : seq T) (f : T -> 'M[F]_k) x :
  quad (\sum_(e <- s) f e) x = \sum_(e <- s) quad (f e) x.
Proof.
elim: s => [|e s IH]; first by rewrite !big_nil /quad mulmx0 mul0mx mxE.
by rewrite !big_cons quadD IH.
Qed.

Lemma quad_outer_ge0 k (r x : 'rV[F]_k) : 0 <= quad (r^T *m r) x.
Proof. by rewrite quad_gram dot_self_ge0. Qed.

Lemma symmetric_gram m k (a : 'M[F]_(m, k)) : symmetric (a^T *m a).
Proof. by rewrite /symmetric trmx_mul trmxK. Qed.

Lemma symmetricD k (a b : 'M[F]_k) :
  symmetric a -> symmetric b -> symmetric (a + b).
Proof. by rewrite /symmetric linearD /= => -> ->. Qed.

Lemma symmetricZ k (c : F) (a : 'M[F]_k) : symmetric a -> symmetric (c *: a).
Proof. by rewrite /symmetric linearZ /= => ->. Qed.

Lemma symmetric1 k : symmetric (1%:M : 'M[F]_k).
Proof. exact: trmx1. Qed.

Lemma symmetric_sum k (T : Type) (s : seq T) (f : T -> 'M[F]_k) :
  (forall e, symmetric (f e)) -> symmetric (\sum_(e <- s) f e).
Proof.
move=> symf; elim: s => [|e s IH]; first by rewrite big_nil /symmetric trmx0.
by rewrite big_cons; apply: symmetricD.
Qed.

Lemma posdef_ridge k (a : 'M[F]_k) (reg : F) :
  (forall x, 0 <= quad a x) -> 0 < reg -> posdef (a + reg *: 1%:M).
Proof.
move=> a_ge0 reg_gt0 x xn0; rewrite quadD quadZ quad_dot.
by rewrite ltr_wpDl ?a_ge0 // mulr_gt0 // dot_self_gt0.
Qed.

(* the matrix of the explicit variant *)
Lemma gram_ridge_spd m k (a : 'M[F]_(m, k)) (reg : F) :
  0 < reg -> spd (a^T *m a + reg *: 1%:M).
Proof.
move=> reg_gt0; split.
  by apply: symmetricD; [exact: symmetric_gram | exact/symmetricZ/symmetric1].
by apply: posdef_ridge => // x; rewrite quad_gram dot_self_ge0.
Qed.

(* Y^T Cu Y is the sum of the weighted outer products of the rows named by
   the diagonal entries of Cu *)
Lemma outer_delta n k (Y : 'M[F]_(n, k)) (i : 'I_n) :
  Y^T *m (delta_mx i i *m Y) = (row i Y)^T *m row i Y.
Proof.
rewrite -(mul_delta_mx (0 : 'I_1)) -mulmxA mulmxA -rowE.
by rewrite -[delta_mx i 0]trmx_delta -trmx_mul -rowE.
Qed.

Lemma csr_correction n k (Y : 'M[F]_(n, k)) (idx : seq 'I_n) (vals : seq F) :
  Y^T *m (csr_diag idx vals *m Y)
  = \sum_(e <- zip idx vals) e.2 *: ((row e.1 Y)^T *m row e.1 Y).
Proof.
rewrite /csr_diag mulmx_suml mulmx_sumr; apply: eq_bigr => e _.
by rewrite -scalemxAl -scalemxAr outer_delta.
Qed.

Lemma csr_col_ones n (idx : seq 'I_n) :
  csr_col idx (nseq (size idx) 1) = \sum_(j <- idx) (delta_mx j 0 : 'cV[F]_n).
Proof.
rewrite /csr_col; elim: idx => [|j idx IH] /=; first by rewrite !big_nil.
by rewrite !big_cons IH scale1r.
Qed.

Lemma delta_indicator n (idx : seq 'I_n) (i : 'I_n) :
  uniq idx -> i \in idx ->
  delta_mx i i *m (\sum_(j <- idx) (delta_mx j 0 : 'cV[F]_n))
  = delta_mx i 0.
Proof.
elim: idx => [|j idx IH] //=; rewrite inE => /andP [nin uidx].
rewrite big_cons mulmxDr mul_delta_mx_cond.
case/orP=> [/eqP eij|iin].
  rewrite eij eqxx mulr1n; rewrite -eij in nin *.
  rewrite mulmx_sumr big_seq big1 ?addr0 // => j' j'in.
  rewrite mul_delta_mx_cond; case: eqP => // eij'.
  by move: nin; rewrite eij' j'in.
rewrite IH //; case: eqP => [eij|_]; last by rewrite mulr0n add0r.
by move: nin; rewrite -eij iin.
Qed.

Lemma csr_rhs n k (Y : 'M[F]_(n, k)) (idx : seq 'I_n) (vals : seq F) :
  uniq idx ->
  (Y^T *m ((csr_diag idx vals *m csr_col idx (nseq (size idx) 1))^T)^T)^T
  = \sum_(e <- zip idx vals) e.2 *: row e.1 Y.
Proof.
move=> uidx; rewrite trmxK csr_col_ones trmx_mul trmxK /csr_diag.
rewrite mulmx_suml linear_sum mulmx_suml /= big_seq [RHS]big_seq.
apply: eq_bigr => e ein.
have e1in : e.1 \in idx by case: e ein => a b /mem_zip [].
rewrite -scalemxAl delta_indicator // linearZ /= trmx_delta -scalemxAl.
by rewrite -rowE.
Qed.

(* the matrix of the implicit variant, the confidences not negative *)
Lemma weighted_ridge_spd n k (Y : 'M[F]_(n, k)) (idx : seq 'I_n)
    (vals : seq F) (reg : F) :
  all (fun c => 0 <= c) vals -> 0 < reg ->
  spd (Y^T *m Y + Y^T *m (csr_diag idx vals *m Y) + reg *: 1%:M).
Proof.
move=> vals_ge0 reg_gt0; rewrite csr_correction; split.
  apply: symmetricD; last exact/symmetricZ/symmetric1.
  apply: symmetricD; first exact: symmetric_gram.
  by apply: symmetric_sum => e; apply/symmetricZ/symmetric_gram.
apply: posdef_ridge => // x; rewrite quadD addr_ge0 ?quad_gram ?dot_self_ge0 //.
rewrite quad_sum big_seq sumr_ge0 // => e ein; rewrite quadZ mulr_ge0 //.
  by case: e ein => a b /mem_zip [_ bin] /=; apply: (allP vals_ge0).
exact: quad_outer_ge0.
Qed.

Lemma weighted_row_sumE n k (a : 'M[F]_(n, k)) (idx : seq 'I_n) (w : seq F) :
  size w = size idx ->
  weighted_row_sum w (take_rows a idx) = \sum_(e <- zip idx w) e.2 *: row e.1 a.
Proof.
rewrite /weighted_row_sum; case: idx => [|i0 idx'] sz.
  by move/size0nil: sz => ->; rewrite big_ord0 big_nil.
set idx := i0 :: idx'.
rewrite (big_nth (i0, 0)) size_zip sz minnn big_mkord.
apply: eq_bigr => r _; rewrite nth_zip //=; congr (_ *: _).
by apply/rowP => c; rewrite !mxE (tnth_nth i0).
Qed.

(* ----- the systems the sweeps solve ----- *)

Lemma wf_dataset_dicts (d : dataset) : wf_dataset d -> dicts_of_dicts d.
Proof.
case/andP=> /andP [uu /allP au] /andP [ui /allP ai]; apply/and4P; split=> //.
  by apply/allP => e /au /and4P [].
by apply/allP => e /ai /and4P [].
Qed.

Lemma erase_zip m (idx : seq 'I_m) (nb : dict F) :
  [seq val i | i <- idx] = keys nb -> erase (zip idx (values nb)) = nb.
Proof.
elim: idx nb => [|i idx IH] [|[j l] nb] //= [-> /IH e].
by rewrite /erase /= -/(erase _) e.
Qed.

Lemma ALS_rating_solve_entity_row n m reg nbrs_of
    (other : 'M[F]_(m, n_factors)) u (u' : 'I_n) x :
  ALS_rating_solve_entity reg nbrs_of other u = Ok (u', x) -> val u' = u.
Proof.
rewrite /ALS_rating_solve_entity.
case: (dict_get _ _) => [nb|] //=; case: (array_index _ _) => [idx|] //=.
case: (linalg_solve _ _) => [y|] //=.
by case ei: (index n u) => [w|] //= [ew _]; rewrite -ew (indexP ei).
Qed.

Lemma ALS_rating_solve_entityP n m reg nbrs_of
    (other : 'M[F]_(m, n_factors)) u nb (u' : 'I_n) x :
  uniq (keys nbrs_of) -> (u, nb) \in nbrs_of ->
  ALS_rating_solve_entity reg nbrs_of other u = Ok (u', x) ->
  exists nb' : seq ('I_m * F),
    [/\ val u' = u, erase nb' = nb & ridge_system reg other nb' x].
Proof.
move=> ud uin eq_solve; have vu := ALS_rating_solve_entity_row eq_solve.
move: eq_solve; rewrite /ALS_rating_solve_entity (dict_get_in ud uin) /=.
rewrite /array_index; case enb: (keys nb) => [|j js] //; rewrite -enb.
case eidx: (mapM _ _) => [idx|] //=.
have vidx := mapM_indexP eidx.
have sz : size (values nb) = size idx.
  by rewrite -(size_map val idx) vidx !size_map.
case es: (linalg_solve _ _) => [y|] //=; case: (index n u) => [w|] //= [_ <-].
exists (zip idx (values nb)); split=> //; first exact: erase_zip.
have [_ eb] := linalg_solveP es.
rewrite /ridge_system unzip1_zip ?sz // -weighted_row_sumE // -eb.
by rewrite trmx_mul trmxK.
Qed.

Lemma ALS_rating_solve_entity_ok n m reg nbrs_of
    (other : 'M[F]_(m, n_factors)) u :
  wf_dict n m nbrs_of -> 0 < reg -> u \in keys nbrs_of ->
  is_ok (ALS_rating_solve_entity (n := n) reg nbrs_of other u).
Proof.
case/andP=> ud /allP wf reg_gt0 /mapP [[u0 nb] uin /= eu].
rewrite -eu in uin; have /and4P /= [ltun nb_n0 _ lt_nb] := wf _ uin.
rewrite /ALS_rating_solve_entity (dict_get_in ud uin) /=.
rewrite /array_index; case enb: (keys nb) => [|j js].
  by case: (nb) enb nb_n0.
rewrite -enb.
have [|idx -> _ /=] := @mapM_index_ok m (keys nb).
  by rewrite all_map; apply: sub_all lt_nb.
have [y -> _ /=] := linalg_solve_posdef
  (weighted_row_sum (values nb) (take_rows other idx))
  (proj2 (gram_ridge_spd (take_rows other idx) reg_gt0)).
by have [w -> _] := index_ok ltun.
Qed.

(* ----- the epoch loop of fit ----- *)

Lemma loop_iterM (S : Type) (step : S -> result S) (rep : nat -> seq report)
    (es : seq nat) (f0 : S) (log0 : seq report) :
  foldM (fun st e => f' <-- step st.1 ;; Ok (f', st.2 ++ rep e))
        (f0, log0) es
  = f <-- iterM (size es) step f0 ;;
    Ok (f, log0 ++ flatten [seq rep e | e <- es]).
Proof.
elim: es f0 log0 => [|e es IH] f0 log0 /=; first by rewrite cats0.
by case: (step f0) => [f1|] //=; rewrite IH catA.
Qed.

Lemma ALS_rating_fitE h d verbose :
  ALS_rating_fit h d verbose
  = f <-- iterM (n_epochs h) (ALS_rating_epoch (reg h) d)
               (truncated_normal_pu (seed h), truncated_normal_qi (seed h)) ;;
    Ok (Model h d (global_mean d) f.1 f.2,
        flatten [seq ALS_rating_report verbose e (task h)
                | e <- iota 1 (n_epochs h)]).
Proof.
rewrite /ALS_rating_fit /ALS_rating_loop_body loop_iterM size_iota.
by case: (iterM _ _ _).
Qed.

Lemma ALS_rating_epochP reg (d : dataset)
    (P P' : 'M[F]_(n_users, n_factors)) (Q Q' : 'M[F]_(n_items, n_factors)) :
  dicts_of_dicts d ->
  ALS_rating_epoch reg d (P, Q) = Ok (P', Q') ->
  [/\ ALS_rating_user_sweep reg d Q P = Ok P',
      ALS_rating_item_sweep reg d P' Q = Ok Q',
      forall u nb, (u, nb) \in train_user d ->
        exists (u' : 'I_n_users) (nb' : seq ('I_n_items * F)),
          [/\ val u' = u, erase nb' = nb & ridge_system reg Q nb' (row u' P')]
    & forall i nb, (i, nb) \in train_item d ->
        exists (i' : 'I_n_items) (nb' : seq ('I_n_users * F)),
          [/\ val i' = i, erase nb' = nb & ridge_system reg P' nb' (row i' Q')]].
Proof.
case/and4P=> uu ui _ _; rewrite /ALS_rating_epoch /=.
case eu: (ALS_rating_user_sweep _ _ _ _) => [P1|] //=.
case ei: (ALS_rating_item_sweep _ _ _ _) => [Q1|] //= [eP eQ].
rewrite -{P'}eP -{Q'}eQ; split=> //.
  move=> u nb uin.
  have [] := sweepP (@ALS_rating_solve_entity_row _ _ reg _ Q) uu eu.
  move=> /(_ u) H _; case: H => [|u' [x [es erow]]].
    by apply/mapP; exists (u, nb).
  have [nb' [vu enb sys]] := ALS_rating_solve_entityP uu uin es.
  by exists u', nb'; rewrite erow.
move=> i nb iin.
have [] := sweepP (@ALS_rating_solve_entity_row _ _ reg _ P1) ui ei.
move=> /(_ i) H _; case: H => [|i' [x [es erow]]].
  by apply/mapP; exists (i, nb).
have [nb' [vi enb sys]] := ALS_rating_solve_entityP ui iin es.
by exists i', nb'; rewrite erow.
Qed.

Lemma ALS_rating_epoch_ok reg (d : dataset) (f : factors) :
  wf_dataset d -> 0 < reg -> exists f', ALS_rating_epoch reg d f = Ok f'.
Proof.
case/andP=> wfu wfi reg_gt0; rewrite /ALS_rating_epoch.
have [P1 eP1] := sweep_ok (solve := @ALS_rating_solve_entity _ _ _ _ reg _ f.2)
  f.1 (fun u => @ALS_rating_solve_entity_ok n_users _ reg _ f.2 u wfu reg_gt0).
have -> /= : ALS_rating_user_sweep reg d f.2 f.1 = Ok P1 by exact: eP1.
have [Q1 eQ1] := sweep_ok (solve := @ALS_rating_solve_entity _ _ _ _ reg _ P1)
  f.2 (fun u => @ALS_rating_solve_entity_ok n_items _ reg _ P1 u wfi reg_gt0).
have -> /= : ALS_rating_item_sweep reg d P1 f.2 = Ok Q1 by exact: eQ1.
by exists (P1, Q1).
Qed.

Lemma iterM_ok (S : Type) (step : S -> result S) n s :
  (forall s, exists s', step s = Ok s') -> exists s', iterM n step s = Ok s'.
Proof.
move=> ok; elim: n s => [|n IH] s /=; first by exists s.
by have [s1 ->] := ok s; apply: IH.
Qed.

(** C1: fit of ALS_rating runs n_epochs epochs; an epoch is the sweep over all
    users followed by the sweep over all items, the item sweep reading the
    user matrix the user sweep has just produced; after the epoch the row of
    every user u of train_user solves
    (Q[I_u]^T Q[I_u] + reg I) x = sum_(i in I_u) r_ui Q[i] for the item matrix
    Q the epoch started from, and the row of every item solves the same
    system built from the updated user matrix.  On a well-formed dataset
    with reg > 0 the epoch, and so the whole of fit, returns. *)
Theorem ALS_rating_fit_alternates (h : params) (d : dataset) (verbose : int)
    (P : 'M[F]_(n_users, n_factors)) (Q : 'M[F]_(n_items, n_factors)) :
  dicts_of_dicts d ->
  [/\ ALS_rating_fit h d verbose
      = f <-- iterM (n_epochs h) (ALS_rating_epoch (reg h) d)
                   (truncated_normal_pu (seed h),
                    truncated_normal_qi (seed h)) ;;
        Ok (Model h d (global_mean d) f.1 f.2,
            flatten [seq ALS_rating_report verbose e (task h)
                    | e <- iota 1 (n_epochs h)]),
      forall P' Q', ALS_rating_epoch (reg h) d (P, Q) = Ok (P', Q') ->
        [/\ ALS_rating_user_sweep (reg h) d Q P = Ok P',
            ALS_rating_item_sweep (reg h) d P' Q = Ok Q',
            forall u nb, (u, nb) \in train_user d ->
              exists (u' : 'I_n_users) (nb' : seq ('I_n_items * F)),
                [/\ val u' = u, erase nb' = nb
                  & ridge_system (reg h) Q nb' (row u' P')]
          & forall i nb, (i, nb) \in train_item d ->
              exists (i' : 'I_n_items) (nb' : seq ('I_n_users * F)),
                [/\ val i' = i, erase nb' = nb
                  & ridge_system (reg h) P' nb' (row i' Q')]]
    & wf_dataset d -> 0 < reg h ->
      (exists f', ALS_rating_epoch (reg h) d (P, Q) = Ok f') /\
      (exists ml, ALS_rating_fit h d verbose = Ok ml)].
Proof.
move=> dd; split; first exact: ALS_rating_fitE.
  by move=> P' Q'; apply: ALS_rating_epochP.
move=> wf reg_gt0; split; first exact: ALS_rating_epoch_ok.
rewrite ALS_rating_fitE.
have [f ->] := iterM_ok (n_epochs h)
  (truncated_normal_pu (seed h), truncated_normal_qi (seed h))
  (fun f => ALS_rating_epoch_ok f wf reg_gt0).
by eexists.
Qed.

(* ----- the implicit variant ----- *)

Lemma csr_indexP m js (idx : seq 'I_m) :
  csr_index m js = Ok idx -> [seq val i | i <- idx] = js.
Proof. by rewrite /csr_index; case: ifP => // _; apply: mapM_indexP. Qed.

Lemma csr_index_ok m js :
  all (fun j => j < m)%N js ->
  exists2 idx : seq 'I_m, csr_index m js = Ok idx & [seq val i | i <- idx] = js.
Proof. by move=> ltm; rewrite /csr_index ltm; apply: mapM_index_ok. Qed.

Lemma big_zip_confidence (V : zmodType) m (G : 'I_m -> F -> V)
    (ci : seq 'I_m) (ls : seq F) :
  \sum_(e <- zip ci [seq l * 10%:R | l <- ls]) G e.1 e.2
  = \sum_(e <- zip ci ls) G e.1 (10%:R * e.2).
Proof.
elim: ci ls => [|i ci IH] [|l ls] //=; rewrite ?big_nil //.
by rewrite !big_cons IH /= mulrC.
Qed.

Lemma ALS_ranking_9090_solve_entity_row n m reg nbrs_of
    (Y : 'M[F]_(m, n_factors)) YtY u (u' : 'I_n) x :
  ALS_ranking_9090_solve_entity reg nbrs_of Y YtY u = Ok (u', x) ->
  val u' = u.
Proof.
rewrite /ALS_ranking_9090_solve_entity.
case: (dict_get _ _) => [nb|] //=; case: (csr_index _ _) => [idx|] //=.
case: (linalg_solve _ _) => [y|] //=.
by case ei: (index n u) => [w|] //= [ew _]; rewrite -ew (indexP ei).
Qed.

Lemma ALS_ranking_9090_solve_entityP n m reg nbrs_of
    (Y : 'M[F]_(m, n_factors)) u nb (u' : 'I_n) x :
  uniq (keys nbrs_of) -> (u, nb) \in nbrs_of -> uniq (keys nb) ->
  ALS_ranking_9090_solve_entity reg nbrs_of Y (Y^T *m Y) u = Ok (u', x) ->
  exists nb' : seq ('I_m * F),
    [/\ val u' = u, erase nb' = nb & weighted_ridge_system reg Y nb' x].
Proof.
move=> ud uin unb eq_solve.
have vu := ALS_ranking_9090_solve_entity_row eq_solve.
move: eq_solve; rewrite /ALS_ranking_9090_solve_entity (dict_get_in ud uin) /=.
case eci: (csr_index _ _) => [ci|] //=.
have vci := csr_indexP eci.
have uci : uniq ci by rewrite -(map_inj_uniq val_inj) vci.
have sz : size (keys nb) = size ci by rewrite -vci size_map.
case es: (linalg_solve _ _) => [y|] //=; case: (index n u) => [w|] //= [_ <-].
exists (zip ci (values nb)); split=> //; first exact: erase_zip.
have [_ eb] := linalg_solveP es; move: eb.
rewrite sz csr_rhs // /ycy_reg csr_correction.
rewrite (big_zip_confidence (fun i c => c *: ((row i Y)^T *m row i Y))).
rewrite (big_zip_confidence (fun i c => c *: row i Y)) => eb.
by rewrite /weighted_ridge_system -eb trmx_mul trmxK.
Qed.

Lemma ALS_ranking_9090_solve_entity_ok n m reg nbrs_of
    (Y : 'M[F]_(m, n_factors)) u :
  wf_dict n m nbrs_of -> nonneg_labels nbrs_of -> 0 < reg ->
  u \in keys nbrs_of ->
  is_ok (ALS_ranking_9090_solve_entity (n := n) reg nbrs_of Y (Y^T *m Y) u).
Proof.
case/andP=> ud /allP wf /allP nn reg_gt0 /mapP [[u0 nb] uin /= eu].
rewrite -eu in uin; have /and4P /= [ltun _ _ lt_nb] := wf _ uin.
have /= nn_nb := nn _ uin.
rewrite /ALS_ranking_9090_solve_entity (dict_get_in ud uin) /=.
have [|ci -> _ /=] := @csr_index_ok m (keys nb).
  by rewrite all_map; apply: sub_all lt_nb.
set b := (X in linalg_solve _ X).
have [|y -> _ /=] := linalg_solve_posdef b
  (proj2 (@weighted_ridge_spd _ _ Y ci [seq l * 10%:R | l <- values nb] reg _
            reg_gt0)).
  rewrite all_map /values all_map; apply: sub_all nn_nb => e /= e_ge0.
  by rewrite mulr_ge0 // ler0n.
by have [w -> _] := index_ok ltun.
Qed.

Lemma ALS_ranking_9090_fitE h d verbose :
  ALS_ranking_9090_fit h d verbose
  = f <-- iterM (n_epochs h) (ALS_ranking_9090_epoch (reg h) d)
               (truncated_normal_pu (seed h), truncated_normal_qi (seed h)) ;;
    Ok (Model h d (global_mean d) f.1 f.2,
        flatten [seq ALS_ranking_9090_report verbose e (task h)
                | e <- iota 1 (n_epochs h)]).
Proof.
rewrite /ALS_ranking_9090_fit /ALS_ranking_9090_loop_body loop_iterM size_iota.
by case: (iterM _ _ _).
Qed.

Lemma in_all_uniq (d : dict (dict F)) u nb :
  all (fun e => uniq (keys e.2)) d -> (u, nb) \in d -> uniq (keys nb).
Proof. by move=> /allP H /H. Qed.

Lemma ALS_ranking_9090_epochP reg (d : dataset)
    (X X' : 'M[F]_(n_users, n_factors)) (Y Y' : 'M[F]_(n_items, n_factors)) :
  dicts_of_dicts d ->
  ALS_ranking_9090_epoch reg d (X, Y) = Ok (X', Y') ->
  [/\ foldM (ALS_ranking_9090_update reg (train_user d) Y (Y^T *m Y)) X
            (keys (train_user d)) = Ok X',
      foldM (ALS_ranking_9090_update reg (train_item d) X' (X'^T *m X')) Y
            (keys (train_item d)) = Ok Y',
      forall u nb, (u, nb) \in train_user d ->
        exists (u' : 'I_n_users) (nb' : seq ('I_n_items * F)),
          [/\ val u' = u, erase nb' = nb
            & weighted_ridge_system reg Y nb' (row u' X')]
    & forall i nb, (i, nb) \in train_item d ->
        exists (i' : 'I_n_items) (nb' : seq ('I_n_users * F)),
          [/\ val i' = i, erase nb' = nb
            & weighted_ridge_system reg X' nb' (row i' Y')]].
Proof.
case/and4P=> uu ui iu ii; rewrite /ALS_ranking_9090_epoch /=.
case eu: (foldM _ _ _) => [X1|] //=.
case ei: (foldM _ _ _) => [Y1|] //= [eX eY].
rewrite -{X'}eX -{Y'}eY; split=> //.
  move=> u nb uin.
  have [] := sweepP
    (@ALS_ranking_9090_solve_entity_row _ _ reg _ Y (Y^T *m Y)) uu eu.
  move=> /(_ u) H _; case: H => [|u' [x [es erow]]].
    by apply/mapP; exists (u, nb).
  have [nb' [vu enb sys]] :=
    ALS_ranking_9090_solve_entityP uu uin (in_all_uniq iu uin) es.
  by exists u', nb'; rewrite erow.
move=> i nb iin.
have [] := sweepP
  (@ALS_ranking_9090_solve_entity_row _ _ reg _ X1 (X1^T *m X1)) ui ei.
move=> /(_ i) H _; case: H => [|i' [x [es erow]]].
  by apply/mapP; exists (i, nb).
have [nb' [vi enb sys]] :=
  ALS_ranking_9090_solve_entityP ui iin (in_all_uniq ii iin) es.
by exists i', nb'; rewrite erow.
Qed.

Lemma ALS_ranking_9090_epoch_ok reg (d : dataset) (f : factors) :
  wf_dataset d -> nonneg_labels (train_user d) ->
  nonneg_labels (train_item d) -> 0 < reg ->
  exists f', ALS_ranking_9090_epoch reg d f = Ok f'.
Proof.
case/andP=> wfu wfi nnu nni reg_gt0; rewrite /ALS_ranking_9090_epoch /=.
have [X1 eX1] := sweep_ok
  (solve := @ALS_ranking_9090_solve_entity _ _ _ _ reg _ f.2 (f.2^T *m f.2)) f.1
  (fun u => @ALS_ranking_9090_solve_entity_ok n_users _ reg _ f.2 u
              wfu nnu reg_gt0).
have -> /= : foldM (ALS_ranking_9090_update reg (train_user d) f.2
                      (f.2^T *m f.2)) f.1 (keys (train_user d)) = Ok X1.
  exact: eX1.
have [Y1 eY1] := sweep_ok
  (solve := @ALS_ranking_9090_solve_entity _ _ _ _ reg _ X1 (X1^T *m X1)) f.2
  (fun u => @ALS_ranking_9090_solve_entity_ok n_items _ reg _ X1 u
              wfi nni reg_gt0).
have -> /= : foldM (ALS_ranking_9090_update reg (train_item d) X1
                      (X1^T *m X1)) f.2 (keys (train_item d)) = Ok Y1.
  exact: eY1.
by exists (X1, Y1).
Qed.

(** C2: in ALS_ranking_9090 the Gram matrix YtY = Y^T Y of all item rows is
    computed once, before the user sweep, and handed to every user update;
    after an epoch the row of every user u of train_user solves
    (YtY + sum_(i in I_u) c_ui Y[i]^T Y[i] + reg I) x = sum_(i in I_u) c_ui Y[i]
    with c_ui = 10 l_ui, and the row of every item solves the mirrored
    system whose Gram matrix XtX and rows come from the user matrix the user
    sweep has just produced.  With reg > 0 and labels that are not negative
    the epoch, and so fit, returns on a well-formed dataset. *)
Theorem ALS_ranking_9090_weighted_ridge (h : params) (d : dataset)
    (verbose : int)
    (X : 'M[F]_(n_users, n_factors)) (Y : 'M[F]_(n_items, n_factors)) :
  dicts_of_dicts d ->
  [/\ ALS_ranking_9090_fit h d verbose
      = f <-- iterM (n_epochs h) (ALS_ranking_9090_epoch (reg h) d)
                   (truncated_normal_pu (seed h),
                    truncated_normal_qi (seed h)) ;;
        Ok (Model h d (global_mean d) f.1 f.2,
            flatten [seq ALS_ranking_9090_report verbose e (task h)
                    | e <- iota 1 (n_epochs h)]),
      ALS_ranking_9090_epoch (reg h) d (X, Y)
      = X' <-- foldM (ALS_ranking_9090_update (reg h) (train_user d) Y
                        (Y^T *m Y)) X (keys (train_user d)) ;;
        Y' <-- foldM (ALS_ranking_9090_update (reg h) (train_item d) X'
                        (X'^T *m X')) Y (keys (train_item d)) ;;
        Ok (X', Y'),
      forall X' Y', ALS_ranking_9090_epoch (reg h) d (X, Y) = Ok (X', Y') ->
        (forall u nb, (u, nb) \in train_user d ->
           exists (u' : 'I_n_users) (nb' : seq ('I_n_items * F)),
             [/\ val u' = u, erase nb' = nb
               & weighted_ridge_system (reg h) Y nb' (row u' X')]) /\
        (forall i nb, (i, nb) \in train_item d ->
           exists (i' : 'I_n_items) (nb' : seq ('I_n_users * F)),
             [/\ val i' = i, erase nb' = nb
               & weighted_ridge_system (reg h) X' nb' (row i' Y')])
    & wf_dataset d -> nonneg_labels (train_user d) ->
      nonneg_labels (train_item d) -> 0 < reg h ->
      (exists f', ALS_ranking_9090_epoch (reg h) d (X, Y) = Ok f') /\
      (exists ml, ALS_ranking_9090_fit h d verbose = Ok ml)].
Proof.
move=> dd; split=> //; first exact: ALS_ranking_9090_fitE.
  by move=> X' Y' /(ALS_ranking_9090_epochP dd) [_ _ Hu Hi].
move=> wf nnu nni reg_gt0; split; first exact: ALS_ranking_9090_epoch_ok.
rewrite ALS_ranking_9090_fitE.
have [f ->] := iterM_ok (n_epochs h)
  (truncated_normal_pu (seed h), truncated_normal_qi (seed h))
  (fun f => ALS_ranking_9090_epoch_ok f wf nnu nni reg_gt0).
by eexists.
Qed.

(** C3 (amended): with reg > 0 the matrix yy_reg of the explicit variant is
    symmetric positive definite, hence invertible, and np.linalg.solve
    returns the solution for every right-hand side; the matrix ycy_reg of
    the implicit variant has the same three properties when no label of the
    entity is negative, so that no confidence 10 l is negative. *)
Theorem normal_equations_spd (m : nat) (reg : F)
    (A : 'M[F]_(m, n_factors)) (idx : seq 'I_m) (labels : seq F) :
  0 < reg ->
  [/\ spd (yy_reg reg A idx),
      yy_reg reg A idx \in unitmx,
      forall b, exists2 x, linalg_solve (yy_reg reg A idx) b = Ok x
                         & x *m (yy_reg reg A idx)^T = b
    & all (fun l => 0 <= l) labels ->
      let Cu := csr_diag idx [seq l * 10%:R | l <- labels] in
      let M := ycy_reg reg A (A^T *m A) Cu in
      [/\ spd M, M \in unitmx
        & forall b, exists2 x, linalg_solve M b = Ok x & x *m M^T = b]].
Proof.
move=> reg_gt0.
have spd_yy : spd (yy_reg reg A idx) by exact: gram_ridge_spd.
split=> //; first exact: posdef_unit (proj2 spd_yy).
  by move=> b; apply: linalg_solve_posdef (proj2 spd_yy).
move=> labels_ge0 Cu M.
have spd_M : spd M.
  apply: weighted_ridge_spd => //; rewrite all_map.
  by apply: sub_all labels_ge0 => l /= l_ge0; rewrite mulr_ge0 // ler0n.
split=> //; first exact: posdef_unit (proj2 spd_M).
by move=> b; apply: linalg_solve_posdef (proj2 spd_M).
Qed.

(* ----- predict ----- *)

Lemma py_in_rangeE n j :
  py_in_range n j
  = match j with Posz m => (m < n)%N | Negz m => (m < n)%N end.
Proof.
rewrite /py_in_range; case: j => m.
  by rewrite ltz_nat (le_trans _ (lez_nat 0 m)) // oppr_le0.
by rewrite NegzE lerN2 lez_nat (lt_le_trans _ (lez_nat 0 n)) ?andbT // oppr_lt0.
Qed.

Lemma py_index_ok n j :
  py_in_range n j ->
  exists2 i : 'I_n, py_index n j = Ok i & Posz (val i) = py_wrap n j.
Proof.
rewrite py_in_rangeE /py_wrap; case: j => m ltmn /=.
  by have [i -> vi] := index_ok ltmn; exists i; rewrite ?vi.
rewrite ltmn; have [|i -> vi] := @index_ok n (n - m.+1).
  by rewrite -subSn // subSS leq_subr.
by exists i => //; rewrite vi NegzE -subzn.
Qed.

Lemma py_index_out n j :
  ~~ py_in_range n j -> py_index n j = Raise IndexError.
Proof.
rewrite py_in_rangeE; case: j => m /=; rewrite -leqNgt => lenm.
  exact: index_raise.
by rewrite ltnNge lenm.
Qed.

Lemma factor_dot_ok (m : model) u i :
  py_in_range n_users u -> py_in_range n_items i ->
  exists (u' : 'I_n_users) (i' : 'I_n_items),
    [/\ Posz (val u') = py_wrap n_users u, Posz (val i') = py_wrap n_items i
      & factor_dot m u i = Ok (dot (row u' (pu m)) (row i' (qi m)))].
Proof.
move=> /py_index_ok [u' eu vu] /py_index_ok [i' ei vi].
by exists u', i'; rewrite /factor_dot eu ei.
Qed.

Lemma factor_dot_out (m : model) u i :
  ~~ (py_in_range n_users u && py_in_range n_items i) ->
  factor_dot m u i = Raise IndexError.
Proof.
rewrite negb_and /factor_dot.
have [/py_index_ok [u' -> _] /= /py_index_out -> //|/py_index_out -> //] :=
  boolP (py_in_range n_users u).
Qed.

Lemma clip_range (x lo hi : F) : lo <= hi -> lo <= clip x lo hi <= hi.
Proof.
by move=> lohi; rewrite /clip le_min le_max lexx orbT lohi ge_min lexx orbT.
Qed.

Lemma ALS_rating_fit_default h d verbose m log :
  ALS_rating_fit h d verbose = Ok (m, log) ->
  default_prediction m = global_mean d.
Proof.
by rewrite ALS_rating_fitE; case: (iterM _ _ _) => [f|] //= [<- _].
Qed.

(** C4: when the user number is at or beyond n_users or the item number is at
    or beyond n_items, predict of ALS_rating returns the stored default, which
    fit has set to the global mean of the dataset; predict raises for no pair
    of ints. *)
Theorem ALS_rating_predict_cold_start (m : model) (u i : int) :
  (Posz n_users <= u) || (Posz n_items <= i) ->
  [/\ ALS_rating_predict m u i = Ok (default_prediction m),
      forall u0 i0, is_ok (ALS_rating_predict m u0 i0)
    & forall h d verbose log, ALS_rating_fit h d verbose = Ok (m, log) ->
        ALS_rating_predict m u i = Ok (global_mean d)].
Proof.
move=> out.
have cold : ALS_rating_predict m u i = Ok (default_prediction m).
  rewrite /ALS_rating_predict factor_dot_out // negb_and /py_in_range.
  by case/orP: out => le_n; rewrite !ltNge le_n ?andbF ?orbT.
split=> //; first move=> u0 i0; last first.
  by move=> h d verbose log /ALS_rating_fit_default <-.
rewrite /ALS_rating_predict.
have [/andP [ru ri]|/factor_dot_out -> //] :=
  boolP (py_in_range n_users u0 && py_in_range n_items i0).
by have [u' [i' [_ _ ->]]] := factor_dot_ok m ru ri.
Qed.

(** C5: when the global mean stored as the default lies in [1, 5], predict of
    ALS_rating returns, for every pair of ints, in range or not, a value
    in [1, 5]. *)
Theorem ALS_rating_predict_in_clip_range (m : model) (u i : int) :
  1 <= default_prediction m <= 5%:R ->
  exists2 r, ALS_rating_predict m u i = Ok r & 1 <= r <= 5%:R.
Proof.
move=> dflt; rewrite /ALS_rating_predict.
have [/andP [ru ri]|/factor_dot_out ->] :=
  boolP (py_in_range n_users u && py_in_range n_items i); last first.
  by exists (default_prediction m).
have [u' [i' [_ _ ->]]] := factor_dot_ok m ru ri.
eexists; first by [].
by apply: clip_range; rewrite (ler_nat _ 1 5).
Qed.

(** C10: a negative int in Python range, -n_users <= u < 0 or
    -n_items <= i < 0, is no cold start: predict of ALS_rating reads the row
    n_users + u (n_items + i) and returns the clipped dot product; the
    IndexError that leads to the default is raised exactly when u or i is at
    or beyond its bound or below the negative bound. *)
Theorem ALS_rating_predict_negative_index (m : model) (u i : int) :
  (py_in_range n_users u -> py_in_range n_items i ->
   exists (u' : 'I_n_users) (i' : 'I_n_items),
     [/\ Posz (val u') = (if u < 0 then Posz n_users + u else u),
         Posz (val i') = (if i < 0 then Posz n_items + i else i)
       & ALS_rating_predict m u i
         = Ok (clip (dot (row u' (pu m)) (row i' (qi m))) 1 5%:R)]) /\
  (factor_dot m u i = Raise IndexError <->
   [|| Posz n_users <= u, u < - Posz n_users,
       Posz n_items <= i | i < - Posz n_items]).
Proof.
split.
  move=> ru ri; have [u' [i' [vu vi e]]] := factor_dot_ok m ru ri.
  by exists u', i'; split=> //; rewrite /ALS_rating_predict e.
have -> : [|| Posz n_users <= u, u < - Posz n_users,
              Posz n_items <= i | i < - Posz n_items]
          = ~~ (py_in_range n_users u && py_in_range n_items i).
  rewrite negb_and /py_in_range !negb_and -!leNgt -!ltNge.
  set a := (Posz n_users <= u); set b := (u < _).
  set c := (Posz n_items <= i); set e := (i < _).
  by case: a; case: b; case: c; case: e.
split; last exact: factor_dot_out.
move=> e; apply/negP => /andP [ru ri].
by have [u' [i' [_ _]]] := factor_dot_ok m ru ri; rewrite e.
Qed.

(* ----- recommend_user ----- *)

(* list(set) enumerates the elements of the set, each once *)
Hypothesis set_order_perm : forall s : seq nat, perm_eq (set_order s) s.

Lemma by_score_desc_total : total by_score_desc.
Proof. by move=> a b; rewrite /by_score_desc le_total. Qed.

Lemma to_list_dots n k (f : F -> F) (x : 'rV[F]_k) (a : 'M[F]_(n, k))
    (idx : seq 'I_n) :
  to_list (map_mx f (x *m (take_rows a idx)^T))
  = [seq f (dot x (row i a)) | i <- idx].
Proof.
have -> : [seq f (dot x (row i a)) | i <- idx]
        = [seq f (dot x (row (tnth (in_tuple idx) c) a))
          | c <- enum 'I_(size idx)].
  have /= e := map_tnth_enum (in_tuple idx).
  by rewrite -[in LHS]e -map_comp.
apply: eq_map => c; rewrite !mxE; congr f; apply: eq_bigr => j _.
by rewrite !mxE.
Qed.

Lemma unlabeled_lt (nbrs : dict F) j : j \in set_order (unlabeled nbrs) -> (j < n_items)%N.
Proof.
by rewrite (perm_mem (set_order_perm _)) mem_filter mem_iota => /and3P [].
Qed.

Lemma unlabeled_no_overflow (nbrs : dict F) :
  has (fun j => n_items < j)%N (set_order (unlabeled nbrs)) = false.
Proof.
by apply/hasPn => j /unlabeled_lt ltj; rewrite -leqNgt ltnW.
Qed.

Lemma unlabled_rankP predict (m : model) u rank :
  unlabled_rank predict m u = Ok rank ->
  exists nbrs (u' : 'I_n_users) (idx : seq 'I_n_items),
    [/\ dict_get (train_user (data m)) u = Ok nbrs, val u' = u,
        [seq val i | i <- idx] = set_order (unlabeled nbrs)
      & rank = [seq (val i, clipped_score m u' i) | i <- idx]].
Proof.
rewrite /unlabled_rank; case ed: (dict_get _ _) => [nbrs|] //=.
rewrite -/(unlabeled nbrs) unlabeled_no_overflow.
case eu: (index n_users u) => [u'|] //=.
case ei: (mapM _ _) => [idx|] //= [<-].
exists nbrs, u', idx; split=> //; first exact: indexP eu.
  exact: mapM_indexP ei.
by rewrite to_list_dots -(mapM_indexP ei) zip_map.
Qed.

Lemma unlabled_rank_ok predict (m : model) u nbrs :
  dict_get (train_user (data m)) u = Ok nbrs -> (u < n_users)%N ->
  exists rank, unlabled_rank predict m u = Ok rank.
Proof.
move=> ed ltu; rewrite /unlabled_rank ed /= -/(unlabeled nbrs).
rewrite unlabeled_no_overflow; have [u' -> _ /=] := index_ok ltu.
have [|idx -> _ /=] := @mapM_index_ok n_items (set_order (unlabeled nbrs)).
  by apply/allP => j /unlabeled_lt.
by eexists.
Qed.

Lemma rank_unlabeled (m : model) (u' : 'I_n_users) (idx : seq 'I_n_items)
    nbrs (e : nat * F) :
  [seq val i | i <- idx] = set_order (unlabeled nbrs) ->
  e \in [seq (val i, clipped_score m u' i) | i <- idx] ->
  e.1 \notin keys nbrs.
Proof.
move=> vidx /mapP [i iin ->] /=.
have : val i \in set_order (unlabeled nbrs) by rewrite -vidx map_f.
by rewrite (perm_mem (set_order_perm _)) mem_filter => /andP [].
Qed.

Lemma recommend_user_top_n predict (m : model) u nbrs (n : int) g :
  dict_get (train_user (data m)) u = Ok nbrs -> (u < n_users)%N -> 0 <= n ->
  exists recs,
    [/\ recommend_user predict m u n false g = (Ok recs, g),
        Posz (size recs) <= n,
        all (fun e => e.1 \notin keys nbrs) recs
      & sorted by_score_desc recs].
Proof.
move=> ed ltu n_ge0; have [rank er] := unlabled_rank_ok predict ed ltu.
have [nbrs' [u' [idx [ed' _ vidx erank]]]] := unlabled_rankP er.
move: ed' vidx; rewrite ed => -[<-] vidx.
case: n n_ge0 => // k _.
exists (take k (sort by_score_desc rank)); split.
- by rewrite /recommend_user er.
- by rewrite lez_nat size_take_min geq_minl.
- apply/allP => e /mem_take; rewrite mem_sort erank.
  exact: rank_unlabeled.
- exact/take_sorted/sort_sorted/by_score_desc_total.
Qed.

(** C6: for a user u of train_user whose number is below n_users and a count
    n >= 0, recommend_user of ALS_rating in deterministic mode returns a list
    of (item, score) pairs of length at most n, none of whose items is a key
    of train_user[u], sorted by non-increasing score. *)
Theorem ALS_rating_recommend_user_top_n (m : model) (u : nat) (nbrs : dict F)
    (n : int) (g : rng) :
  dict_get (train_user (data m)) u = Ok nbrs -> (u < n_users)%N -> 0 <= n ->
  exists recs,
    [/\ ALS_rating_recommend_user m u n false g = (Ok recs, g),
        Posz (size recs) <= n,
        all (fun e => e.1 \notin keys nbrs) recs
      & sorted (fun a b : nat * F => b.2 <= a.2) recs].
Proof. exact: recommend_user_top_n. Qed.

(* ----- weighted-random mode ----- *)

Lemma dict_set_fresh (V : Type) (d : dict V) key v :
  key \notin keys d -> dict_set d key v = rcons d (key, v).
Proof.
elim: d => [|e d IH] //=; rewrite inE negb_or eq_sym => /andP [/negbTE -> nin].
by rewrite IH.
Qed.

Lemma foldl_dict_set (V : Type) (items acc : seq (nat * V)) :
  uniq (keys (acc ++ items)) ->
  foldl (fun d e => dict_set d e.1 e.2) acc items = acc ++ items.
Proof.
elim: items acc => [|[j v] items IH] acc /=; first by rewrite cats0.
rewrite -cat_rcons => uq; rewrite dict_set_fresh ?IH //.
by move: uq; rewrite /keys map_cat cat_uniq map_rcons rcons_uniq -andbA => /and3P [].
Qed.

Lemma dict_of_items_uniq (V : Type) (items : seq (nat * V)) :
  uniq (keys items) -> dict_of_items items = items.
Proof. exact: (@foldl_dict_set V items [::]). Qed.

Lemma dict_get_mem (V : eqType) (d : dict V) key :
  key \in keys d -> exists2 v, dict_get d key = Ok v & (key, v) \in d.
Proof.
elim: d => [|[k' v'] d IH] //=; rewrite inE eq_sym.
case: eqP => [->|_] /=; first by exists v'; rewrite ?inE ?eqxx.
by move=> /IH [v -> vin]; exists v; rewrite // inE vin orbT.
Qed.

Lemma mapM_lookup (V : eqType) (d : dict V) (items : seq nat) :
  {subset items <= keys d} ->
  exists recs,
    [/\ mapM (fun item => r <-- dict_get d item ;; Ok (item, r)) items
        = Ok recs,
        keys recs = items & {subset recs <= d}].
Proof.
elim: items => [|j items IH] sub /=; first by exists [::].
have [|v -> vin /=] := @dict_get_mem _ d j; first by apply: sub; rewrite inE eqxx.
have [|recs [-> krecs subr] /=] := IH.
  by move=> x xin; apply: sub; rewrite inE xin orbT.
exists ((j, v) :: recs); split=> //=; first by rewrite krecs.
by move=> e; rewrite inE => /orP [/eqP -> //|/subr].
Qed.

Lemma normalize_distribution (pred_list : seq F) :
  pred_list != [::] -> all (fun x => 4%:R <= x) pred_list ->
  [/\ size (normalize pred_list) = size pred_list,
      all (fun x => 0 < x) (normalize pred_list)
    & \sum_(x <- normalize pred_list) x = 1].
Proof.
move=> n0 /allP ge4.
have gt0 x : x \in pred_list -> 0 < x.
  by move/ge4; apply: lt_le_trans; rewrite ltr0n.
have sum_gt0 : 0 < \sum_(y <- pred_list) y.
  case: pred_list n0 gt0 {ge4} => // x s _ gt0; rewrite big_cons.
  rewrite ltr_pwDl ?gt0 ?inE ?eqxx // big_seq sumr_ge0 // => y yin.
  by rewrite ltW // gt0 // inE yin orbT.
split; first by rewrite size_map.
  by rewrite all_map; apply/allP => x /gt0 x0 /=; rewrite divr_gt0.
by rewrite big_map -mulr_suml divff // gt_eqF.
Qed.

(* np.random.choice(a, size, replace=False, p=p), from numpy's documentation:
   ValueError when the sample is larger than the population; otherwise, for
   a distribution p over a, a sample of the requested size whose elements
   are drawn from a without replacement *)
Hypothesis random_choice_short : forall a (n : int) p g,
  Posz (size a) < n -> (random_choice a n p g).1 = Raise ValueError.

Hypothesis random_choice_sample : forall a (n : int) p g,
  uniq a -> 0 <= n -> n <= Posz (size a) -> size p = size a ->
  all (fun x => 0 < x) p -> \sum_(x <- p) x = 1 ->
  exists items,
    [/\ (random_choice a n p g).1 = Ok items, uniq items,
        Posz (size items) = n & {subset items <= a}].

Lemma unlabled_rank_uniq predict (m : model) u rank :
  unlabled_rank predict m u = Ok rank -> uniq (keys rank).
Proof.
case/unlabled_rankP=> nbrs [u' [idx [_ _ vidx ->]]].
rewrite /keys -map_comp (eq_map (g := val)) // vidx.
by rewrite (perm_uniq (set_order_perm _)) filter_uniq ?iota_uniq.
Qed.

Lemma high_scores_uniq rank : uniq (keys rank) -> uniq (keys (high_scores rank)).
Proof.
by move=> ur; rewrite (subseq_uniq _ ur) // map_subseq // filter_subseq.
Qed.

Lemma recommend_user_randomE predict (m : model) u rank (n : int) g :
  unlabled_rank predict m u = Ok rank ->
  recommend_user predict m u n true g
  = let cands := high_scores rank in
    let: (item_candidates, g') :=
      random_choice (keys cands) n (normalize (values cands)) g in
    (items <-- item_candidates ;;
     mapM (fun item => r <-- dict_get cands item ;; Ok (item, r)) items, g').
Proof.
move=> er; rewrite /recommend_user er /= -/(high_scores rank).
by rewrite dict_of_items_uniq // high_scores_uniq // (unlabled_rank_uniq er).
Qed.

Lemma high_scores_distribution rank :
  high_scores rank != [::] ->
  [/\ size (normalize (values (high_scores rank)))
      = size (keys (high_scores rank)),
      all (fun x => 0 < x) (normalize (values (high_scores rank)))
    & \sum_(x <- normalize (values (high_scores rank))) x = 1].
Proof.
move=> cn0.
have [||-> pos sum1] := @normalize_distribution (values (high_scores rank)).
- by case: (high_scores rank) cn0.
- by rewrite all_map; apply/allP => e; rewrite mem_filter => /andP [].
by split=> //; rewrite !size_map.
Qed.

Lemma recommend_user_sample predict (m : model) u rank (n : int) g :
  unlabled_rank predict m u = Ok rank -> high_scores rank != [::] ->
  0 <= n -> n <= Posz (size (high_scores rank)) ->
  exists recs,
    [/\ (recommend_user predict m u n true g).1 = Ok recs,
        uniq (keys recs), Posz (size recs) = n
      & {subset recs <= high_scores rank}].
Proof.
move=> er cn0 n_ge0 n_le; rewrite (recommend_user_randomE _ _ er) /=.
set cands := high_scores rank.
have ucands : uniq (keys cands).
  exact/high_scores_uniq/(unlabled_rank_uniq er).
have [sz pos sum1] := high_scores_distribution cn0.
have n_le' : n <= Posz (size (keys cands)) by rewrite size_map.
have [items [ec uitems szitems sub]] :=
  random_choice_sample g ucands n_ge0 n_le' sz pos sum1.
case erc: (random_choice _ _ _ _) ec => [res g'] /= -> /=.
have [recs [-> /= krecs subr]] := mapM_lookup sub.
exists recs; split=> //; first by rewrite krecs.
by rewrite -szitems -krecs size_map.
Qed.

Lemma recommend_user_short predict (m : model) u rank (n : int) g :
  unlabled_rank predict m u = Ok rank ->
  Posz (size (high_scores rank)) < n ->
  (recommend_user predict m u n true g).1 = Raise ValueError.
Proof.
move=> er n_gt; rewrite (recommend_user_randomE _ _ er) /=.
have := @random_choice_short (keys (high_scores rank)) n
  (normalize (values (high_scores rank))) g.
rewrite size_map => /(_ n_gt).
by case: (random_choice _ _ _ _) => [res g'] /= ->.
Qed.

(** C7: in weighted-random mode recommend_user of ALS_rating keeps the
    candidates whose score is at least 4, divides their scores by their sum,
    which gives positive weights that add up to 1, and hands the candidates
    and the weights to np.random.choice without replacement; a request within
    the number of candidates returns that many distinct candidates with
    their scores; with exactly 2 candidates a request for 2 returns exactly
    those 2, and a request for 3 raises ValueError. *)
Theorem ALS_rating_recommend_user_weighted_random (m : model) (u : nat)
    (rank : seq (nat * F)) (g : rng) :
  unlabled_rank ALS_rating_predict m u = Ok rank ->
  let cands := [seq e <- rank | 4%:R <= e.2] in
  let p := [seq e.2 / (\sum_(c <- cands) c.2) | e <- cands] in
  [/\ forall n,
        ALS_rating_recommend_user m u n true g
        = let: (item_candidates, g') := random_choice (keys cands) n p g in
          (items <-- item_candidates ;;
           mapM (fun item => r <-- dict_get cands item ;; Ok (item, r)) items,
           g'),
      cands != [::] -> all (fun x => 0 < x) p /\ \sum_(x <- p) x = 1,
      forall n : int, cands != [::] -> 0 <= n -> n <= Posz (size cands) ->
        exists recs,
          [/\ (ALS_rating_recommend_user m u n true g).1 = Ok recs,
              uniq (keys recs), Posz (size recs) = n
            & {subset recs <= cands}],
      size cands = 2 ->
        exists2 recs, (ALS_rating_recommend_user m u 2 true g).1 = Ok recs
                    & perm_eq recs cands
    & size cands = 2 ->
        (ALS_rating_recommend_user m u 3 true g).1 = Raise ValueError].
Proof.
move=> er cands p.
have ep : p = normalize (values cands).
  by rewrite /p /normalize /values big_map -map_comp.
have ucands : uniq (keys cands).
  exact/high_scores_uniq/(unlabled_rank_uniq er).
split.
- by move=> n; rewrite /ALS_rating_recommend_user (recommend_user_randomE _ _ er) ep.
- by move=> cn0; rewrite ep; have [_ pos sum1] := high_scores_distribution cn0.
- by move=> n; apply: recommend_user_sample.
- move=> sz2.
  have cn0 : cands != [::] by case: (cands) sz2.
  have le2 : (2 : int) <= Posz (size cands) by rewrite sz2.
  have [recs [erecs urecs szrecs sub]] :=
    @recommend_user_sample ALS_rating_predict m u rank 2 g er cn0 isT le2.
  exists recs => //.
  have urecs' : uniq recs by apply: map_uniq urecs.
  have szle : (size cands <= size recs)%N by rewrite sz2; case: szrecs => ->.
  have [_ eqi] := uniq_min_size urecs' sub szle.
  by apply: uniq_perm => //; apply: map_uniq ucands.
- move=> sz2; apply: (recommend_user_short _ er).
  by have -> : size (high_scores rank) = 2 by exact: sz2.
Qed.

(* ----- the ranking variant ----- *)

Lemma recommend_user_deterministicE predict (m : model) u nbrs (n : int) g :
  dict_get (train_user (data m)) u = Ok nbrs -> (u < n_users)%N ->
  exists (u' : 'I_n_users) (idx : seq 'I_n_items),
    [/\ val u' = u, [seq val i | i <- idx] = set_order (unlabeled nbrs)
      & recommend_user predict m u n false g
        = (Ok (slice_to n (sort by_score_desc
                 [seq (val i, clipped_score m u' i) | i <- idx])), g)].
Proof.
move=> ed ltu; have [rank er] := unlabled_rank_ok predict ed ltu.
have [nbrs' [u' [idx [ed' vu vidx erank]]]] := unlabled_rankP er.
move: ed' vidx; rewrite ed => -[<-] vidx.
by exists u', idx; split=> //; rewrite /recommend_user er erank.
Qed.

Lemma ALS_ranking_predict_threshold (m : model) (u i : int) :
  py_in_range n_users u -> py_in_range n_items i ->
  exists (u' : 'I_n_users) (i' : 'I_n_items),
    [/\ Posz (val u') = py_wrap n_users u, Posz (val i') = py_wrap n_items i
      & ALS_ranking_predict m u i
        = Ok (if 2%:R^-1 <= sigmoid (dot (row u' (pu m)) (row i' (qi m)))
              then 1 else 0)].
Proof.
move=> ru ri; have [u' [i' [vu vi e]]] := factor_dot_ok m ru ri.
by exists u', i'; split=> //; rewrite /ALS_ranking_predict e.
Qed.

Lemma sigmoid_increasing (x y : F) :
  (forall z, 0 < exp z) -> (forall a b, a < b -> exp a < exp b) ->
  x < y -> sigmoid x < sigmoid y.
Proof.
move=> exp_gt0 exp_mono ltxy; rewrite /sigmoid !div1r.
have pos z : 0 < 1 + exp (- z) by rewrite addr_gt0 // exp_gt0.
by rewrite ltf_pV2 ?posrE ?pos // ltrD2l exp_mono // ltrN2.
Qed.

(* ----- the task string ----- *)

Lemma ALS_rating_fit_ok h d verbose :
  wf_dataset d -> 0 < reg h -> exists ml, ALS_rating_fit h d verbose = Ok ml.
Proof.
move=> wf reg_gt0; rewrite ALS_rating_fitE.
have [f ->] := iterM_ok (n_epochs h)
  (truncated_normal_pu (seed h), truncated_normal_qi (seed h))
  (fun f => ALS_rating_epoch_ok f wf reg_gt0).
by eexists.
Qed.

Lemma ALS_rating_report_other verbose epoch t :
  String.eqb t "rating" = false -> String.eqb t "ranking" = false ->
  ALS_rating_report verbose epoch t = [::].
Proof. by rewrite /ALS_rating_report => -> ->; rewrite !andbF. Qed.

(** C9 (amended): no task string is rejected.  __init__ stores any string,
    and fit trains the same factors whatever the string is; the task only
    selects what fit reports every fifth epoch, and a string other than
    rating and ranking selects no report at all. *)
Theorem ALS_rating_task_not_validated (ne : nat) (r : F) (sd : nat)
    (t t' : string) (d : dataset) (verbose : int) :
  [/\ __init__ ne r t sd = Ok (Params ne r t sd),
      trained_factors (ALS_rating_fit (Params ne r t sd) d verbose)
      = trained_factors (ALS_rating_fit (Params ne r t' sd) d verbose)
    & String.eqb t "rating" = false -> String.eqb t "ranking" = false ->
      forall m log, ALS_rating_fit (Params ne r t sd) d verbose = Ok (m, log) ->
        log = [::]].
Proof.
split=> //; first by rewrite !ALS_rating_fitE /=; case: (iterM _ _ _).
move=> nrating nranking m log; rewrite ALS_rating_fitE /=.
case: (iterM _ _ _) => [f|] //= [_ <-].
elim: (iota 1 ne) => [|e es IH] //=.
by rewrite ALS_rating_report_other.
Qed.

(* ===================================================================== *)
(* Further properties of the methods                                     *)
(* ===================================================================== *)

(* ----- recommend_user: errors that escape ----- *)


Lemma dict_get_keys (V : Type) (d : dict V) key v :
  dict_get d key = Ok v -> key \in keys d.
Proof.
elim: d => [|e d IH] //=; rewrite inE eq_sym.
by case: eqP => //= _ /IH.
Qed.


(** X2: for a user that is a key of train_user but whose number is at or
    beyond n_users, the IndexError of self.pu[u] escapes from recommend_user
    in either mode: unlike predict, recommend_user has no cold start. *)
Theorem recommend_user_no_cold_start (m : model) (u : nat) (nbrs : dict F)
    (n : int) (random_rec : bool) (g : rng) :
  dict_get (train_user (data m)) u = Ok nbrs -> (n_users <= u)%N ->
  ALS_rating_recommend_user m u n random_rec g = (Raise IndexError, g) /\
  ALS_ranking_recommend_user m u n random_rec g = (Raise IndexError, g).
Proof.
move=> ed leu.
by rewrite /ALS_rating_recommend_user
  /ALS_ranking_recommend_user /recommend_user
  /unlabled_rank ed /= -/(unlabeled nbrs) unlabeled_no_overflow
  (index_raise leu).
Qed.

Lemma unlabled_rank_predict predict predict' (m : model) u :
  unlabled_rank predict m u = unlabled_rank predict' m u.
Proof.
rewrite /unlabled_rank; case: (dict_get _ _) => [nbrs|] //=.
by rewrite -/(unlabeled nbrs) unlabeled_no_overflow.
Qed.

(** X3: the branch of recommend_user that calls predict is never taken, since
    no unlabeled item exceeds n_items: recommend_user of ALS_ranking returns,
    for every model, user, count, mode and generator state, what
    recommend_user of ALS_rating returns. *)
Theorem recommend_user_never_calls_predict (m : model) (u : nat) (n : int)
    (random_rec : bool) (g : rng) :
  ALS_ranking_recommend_user m u n random_rec g
  = ALS_rating_recommend_user m u n random_rec g.
Proof.
rewrite /ALS_rating_recommend_user
  /ALS_ranking_recommend_user /recommend_user.
by rewrite (unlabled_rank_predict ALS_ranking_predict ALS_rating_predict).
Qed.

(* ----- recommend_user: what the deterministic mode returns ----- *)

Lemma by_score_desc_trans : transitive by_score_desc.
Proof. by move=> b a c; rewrite /by_score_desc => ba cb; apply: le_trans ba. Qed.

Lemma unlabeled_uniq (nbrs : dict F) : uniq (unlabeled nbrs).
Proof. by rewrite filter_uniq ?iota_uniq. Qed.

Lemma rank_keys (m : model) (u' : 'I_n_users) (idx : seq 'I_n_items) :
  keys [seq (val i, clipped_score m u' i) | i <- idx] = [seq val i | i <- idx].
Proof. by rewrite /keys -map_comp. Qed.

(** X4: for a user u of train_user with u < n_users and a count k >= 0,
    recommend_user in deterministic mode returns exactly min(k, R) pairs, R
    the number of unlabeled items; their items are distinct unlabeled items,
    each paired with the clipped dot product of its row, and no unlabeled
    item that is left out has a higher score than a returned one. *)
Theorem recommend_user_best_n (m : model) (u : nat) (nbrs : dict F) (k : nat)
    (g : rng) :
  dict_get (train_user (data m)) u = Ok nbrs -> (u < n_users)%N ->
  exists (u' : 'I_n_users) (recs : seq (nat * F)),
    [/\ val u' = u,
        ALS_rating_recommend_user m u (Posz k) false g = (Ok recs, g),
        size recs = minn k (size (unlabeled nbrs)),
        uniq (keys recs)
      & (forall e, e \in recs ->
           exists2 j : 'I_n_items,
             e = (val j, clipped_score m u' j) & val j \in unlabeled nbrs) /\
        (forall (j : 'I_n_items) e,
           val j \in unlabeled nbrs -> val j \notin keys recs -> e \in recs ->
           clipped_score m u' j <= e.2)].
Proof.
move=> ed ltu.
have [u' [idx [vu vidx er]]] :=
  recommend_user_deterministicE ALS_rating_predict (Posz k) g ed ltu.
set rank := [seq (val i, clipped_score m u' i) | i <- idx] in er.
have in_unl j : (val j \in unlabeled nbrs) = (j \in idx).
  by rewrite -(perm_mem (set_order_perm _)) -vidx mem_map //; apply: val_inj.
have urank : uniq (keys rank).
  by rewrite rank_keys vidx (perm_uniq (set_order_perm _)) unlabeled_uniq.
exists u', (take k (sort by_score_desc rank)); split=> //.
- rewrite size_take_min size_sort size_map.
  by rewrite -(size_map val) vidx (perm_size (set_order_perm _)).
- rewrite /keys map_take take_uniq //.
  by rewrite (perm_uniq (perm_map _ (introT permPl (perm_sort _ _)))).
split.
- move=> e /mem_take; rewrite mem_sort => /mapP [j jin ->].
  by exists j; rewrite ?in_unl.
- move=> j e; rewrite in_unl => jin jout ein.
  have : (val j, clipped_score m u' j) \in sort by_score_desc rank.
    by rewrite mem_sort; apply/mapP; exists j.
  rewrite -[sort _ _](cat_take_drop k) mem_cat => /orP [jin'|jdrop].
    by case/negP: jout; apply/mapP; exists (val j, clipped_score m u' j).
  have := sort_sorted by_score_desc_total rank.
  rewrite (sorted_pairwise by_score_desc_trans) -[sort _ _](cat_take_drop k).
  rewrite pairwise_cat => /and3P [/allrelP ord _ _].
  exact: (ord _ _ ein jdrop).
Qed.

(** X5: a negative count is not refused: for a user u of train_user with
    u < n_users, recommend_user in deterministic mode with the count -(k+1)
    returns the whole ranking of the R unlabeled items without its last k+1
    entries, that is R - (k+1) pairs. *)
Theorem recommend_user_negative_count (m : model) (u : nat) (nbrs : dict F)
    (k : nat) (g : rng) :
  dict_get (train_user (data m)) u = Ok nbrs -> (u < n_users)%N ->
  exists full recs : seq (nat * F),
    [/\ ALS_rating_recommend_user m u (Posz (size (unlabeled nbrs))) false g
        = (Ok full, g),
        ALS_rating_recommend_user m u (Negz k) false g = (Ok recs, g),
        size full = size (unlabeled nbrs),
        recs = take (size full - k.+1) full
      & size recs = (size (unlabeled nbrs) - k.+1)%N].
Proof.
move=> ed ltu.
have [u' [idx [vu vidx er]]] :=
  recommend_user_deterministicE ALS_rating_predict (Negz k) g ed ltu.
have [u'' [idx' [vu' vidx' er']]] :=
  recommend_user_deterministicE ALS_rating_predict
    (Posz (size (unlabeled nbrs))) g ed ltu.
have eu : u'' = u' by apply: val_inj; rewrite vu vu'.
have eidx : idx' = idx.
  by apply: (inj_map val_inj); rewrite vidx vidx'.
move: er'; rewrite eu eidx /= => er'.
set rank := [seq (val i, clipped_score m u' i) | i <- idx] in er er'.
have sz : size (sort by_score_desc rank) = size (unlabeled nbrs).
  rewrite size_sort size_map.
  by rewrite -(size_map val) vidx (perm_size (set_order_perm _)).
exists (sort by_score_desc rank), (take (size (unlabeled nbrs) - k.+1)
                                     (sort by_score_desc rank)).
split=> //.
- by rewrite /ALS_rating_recommend_user er' /= -sz take_size.
- by rewrite /ALS_rating_recommend_user er /= sz.
- by rewrite sz.
- by rewrite size_takel // sz leq_subr.
Qed.

(* ----- predict of ALS_ranking and ALS_ranking_9090 ----- *)

(** X6: predict of ALS_ranking (and of ALS_ranking_9090, the same text)
    raises for no pair of ints; for a pair in Python range it returns the
    label 0 or 1, and for a pair out of range the stored default, the global
    mean of the labels, which need not be a label. *)
Theorem ALS_ranking_predict_label_or_default (m : model) (u i : int) :
  (py_in_range n_users u && py_in_range n_items i ->
   ALS_ranking_predict m u i = Ok 1 \/ ALS_ranking_predict m u i = Ok 0) /\
  (~~ (py_in_range n_users u && py_in_range n_items i) ->
   ALS_ranking_predict m u i = Ok (default_prediction m)).
Proof.
split=> [/andP [ru ri]|out].
  have [u' [i' [_ _ ->]]] := ALS_ranking_predict_threshold m ru ri.
  by case: ifP => _; [left | right].
by rewrite /ALS_ranking_predict factor_dot_out.
Qed.

(* np.exp, as far as the threshold needs it *)
Hypothesis exp_gt0 : forall x, 0 < exp x.
Hypothesis exp0 : exp 0 = 1.
Hypothesis exp_le : forall x y, (exp x <= exp y) = (x <= y).

Lemma sigmoid_ge_half (d : F) : (2%:R^-1 <= sigmoid d) = (0 <= d).
Proof.
have pos2 : (2%:R : F) \is Num.pos by rewrite posrE ltr0n.
have posd : 1 + exp (- d) \is Num.pos by rewrite posrE addr_gt0 // exp_gt0.
rewrite /sigmoid div1r lef_pV2 //.
by rewrite -[2%:R]/(1 + 1) lerD2l -exp0 exp_le oppr_le0.
Qed.

(** X7: for a pair of ints in Python range predict of ALS_ranking returns 1
    when the dot product of the two factor rows is not negative and 0 when it
    is: sigmoid(d) >= 0.5 exactly when d >= 0. *)
Theorem ALS_ranking_predict_sign (m : model) (u i : int) :
  py_in_range n_users u -> py_in_range n_items i ->
  exists (u' : 'I_n_users) (i' : 'I_n_items),
    [/\ Posz (val u') = py_wrap n_users u, Posz (val i') = py_wrap n_items i
      & ALS_ranking_predict m u i
        = Ok (if 0 <= dot (row u' (pu m)) (row i' (qi m)) then 1 else 0)].
Proof.
move=> ru ri; have [u' [i' [vu vi e]]] := ALS_ranking_predict_threshold m ru ri.
by exists u', i'; rewrite e sigmoid_ge_half.
Qed.

(* ----- fit: rows that are never written, and failures ----- *)

Section SweepRows.

Variables (n k : nat) (solve : nat -> result ('I_n * 'rV[F]_k)).
Hypothesis solve_row : forall u u' x, solve u = Ok (u', x) -> val u' = u.

Local Notation sweep_step := (sweep_step solve).

Lemma sweep_untouched us (a a' : 'M[F]_(n, k)) (r : 'I_n) :
  foldM sweep_step a us = Ok a' -> val r \notin us -> row r a' = row r a.
Proof.
elim: us a => [|u us IH] a /=; first by case=> <-.
rewrite /sweep_step; case es: (solve u) => [[u' x]|] //=.
move=> /IH H; rewrite inE negb_or => /andP [ru /H ->].
rewrite row_set_row; case: eqP => // eru.
by move: ru; rewrite eru (solve_row es) eqxx.
Qed.

Lemma sweep_raise us (a : 'M[F]_(n, k)) u :
  u \in us -> ~~ is_ok (solve u) -> ~~ is_ok (foldM sweep_step a us).
Proof.
elim: us a => [|w us IH] a //=; rewrite inE eq_sym /sweep_step.
case: (w =P u) => [->|_] /=.
  by move=> _; case: (solve u).
by case: (solve w) => [wx|] //= uin nok; apply: IH.
Qed.

End SweepRows.

Lemma iterM_invariant (S : Type) (step : S -> result S) (P : S -> Prop) n s s' :
  (forall t t', step t = Ok t' -> P t -> P t') ->
  iterM n step s = Ok s' -> P s -> P s'.
Proof.
move=> inv; elim: n s => [|n IH] s /=; first by case=> <-.
by case es: (step s) => [t|] //= /IH H /(inv _ _ es) /H.
Qed.

Lemma iterM_raise (S : Type) (step : S -> result S) n s :
  (forall t, ~~ is_ok (step t)) -> ~~ is_ok (iterM n.+1 step s).
Proof. by move=> nok /=; have := nok s; case: (step s). Qed.

Lemma ALS_rating_epoch_untouched reg (d : dataset) (f f' : factors) :
  ALS_rating_epoch reg d f = Ok f' ->
  (forall r : 'I_n_users, val r \notin keys (train_user d) ->
     row r f'.1 = row r f.1) /\
  (forall r : 'I_n_items, val r \notin keys (train_item d) ->
     row r f'.2 = row r f.2).
Proof.
rewrite /ALS_rating_epoch.
case eu: (ALS_rating_user_sweep _ _ _ _) => [P1|] //=.
case ei: (ALS_rating_item_sweep _ _ _ _) => [Q1|] //= [<-] /=; split=> r nin.
  exact: (sweep_untouched (@ALS_rating_solve_entity_row _ _ reg _ f.2) eu).
exact: (sweep_untouched (@ALS_rating_solve_entity_row _ _ reg _ P1) ei).
Qed.

Lemma ALS_ranking_9090_epoch_untouched reg (d : dataset) (f f' : factors) :
  ALS_ranking_9090_epoch reg d f = Ok f' ->
  (forall r : 'I_n_users, val r \notin keys (train_user d) ->
     row r f'.1 = row r f.1) /\
  (forall r : 'I_n_items, val r \notin keys (train_item d) ->
     row r f'.2 = row r f.2).
Proof.
rewrite /ALS_ranking_9090_epoch /=.
case eu: (foldM _ _ _) => [X1|] //=.
case ei: (foldM _ _ _) => [Y1|] //= [<-] /=; split=> r nin.
  exact: (sweep_untouched
    (@ALS_ranking_9090_solve_entity_row _ _ reg _ f.2 (f.2^T *m f.2)) eu).
exact: (sweep_untouched
  (@ALS_ranking_9090_solve_entity_row _ _ reg _ X1 (X1^T *m X1)) ei).
Qed.

(** X8: fit never writes the row of an entity that is no key of the dict it
    iterates: in the model that fit of ALS_rating or of ALS_ranking_9090
    returns, the row of every user that is no key of train_user, and of every
    item that is no key of train_item, is still the row that truncated_normal
    drew for it. *)
Theorem fit_keeps_rows_of_absent_entities (h : params) (d : dataset)
    (verbose : int) (m : model) (log : seq report) :
  ALS_rating_fit h d verbose = Ok (m, log) \/
  ALS_ranking_9090_fit h d verbose = Ok (m, log) ->
  (forall r : 'I_n_users, val r \notin keys (train_user d) ->
     row r (pu m) = row r (truncated_normal_pu (seed h))) /\
  (forall r : 'I_n_items, val r \notin keys (train_item d) ->
     row r (qi m) = row r (truncated_normal_qi (seed h))).
Proof.
pose P0 (f : factors) :=
  (forall r : 'I_n_users, val r \notin keys (train_user d) ->
     row r f.1 = row r (truncated_normal_pu (seed h))) /\
  (forall r : 'I_n_items, val r \notin keys (train_item d) ->
     row r f.2 = row r (truncated_normal_qi (seed h))).
have P00 : P0 (truncated_normal_pu (seed h), truncated_normal_qi (seed h)).
  by split.
case; rewrite ?ALS_rating_fitE ?ALS_ranking_9090_fitE.
  case ef: (iterM _ _ _) => [f|] //= [<- _] /=.
  apply: (iterM_invariant (P := P0) _ ef P00) => t t' /ALS_rating_epoch_untouched.
  by move=> [Hu Hi] [Pu Pi]; split=> r nin; rewrite ?Hu ?Hi ?Pu ?Pi.
case ef: (iterM _ _ _) => [f|] //= [<- _] /=.
apply: (iterM_invariant (P := P0) _ ef P00) => t t'.
move=> /ALS_ranking_9090_epoch_untouched.
by move=> [Hu Hi] [Pu Pi]; split=> r nin; rewrite ?Hu ?Hi ?Pu ?Pi.
Qed.

Lemma mapM_index_raise n js :
  ~~ all (fun j => j < n)%N js -> mapM (index n) js = Raise IndexError.
Proof.
elim: js => [|j js IH] //=; rewrite negb_and.
case: (ltnP j n) => [/index_ok [i -> _]|/index_raise -> //] /= /IH -> //.
Qed.

Lemma ALS_rating_solve_entity_raise n m reg nbrs_of
    (other : 'M[F]_(m, n_factors)) u nb :
  dict_get nbrs_of u = Ok nb ->
  nilp nb || has (fun e => m <= e.1)%N nb ->
  ALS_rating_solve_entity (n := n) reg nbrs_of other u = Raise IndexError.
Proof.
move=> ed bad; rewrite /ALS_rating_solve_entity ed /=.
rewrite /array_index; case enb: (keys nb) => [|j js] //; rewrite -enb.
rewrite mapM_index_raise // all_map -has_predC.
case/orP: bad => [|bad]; first by case: (nb) enb.
by apply: sub_has bad => e /=; rewrite -leqNgt.
Qed.

(** X9: fit of ALS_rating returns no model, whatever the other data are, when
    it runs at least one epoch and the dict of some user of train_user is
    empty or names an item at or beyond n_items: the update of that user
    raises IndexError, from the index array of dtype float64 that np.array
    makes of an empty list, or from the row that is out of bounds. *)
Theorem ALS_rating_fit_bad_neighbours (h : params) (d : dataset)
    (verbose : int) (u : nat) (nb : dict F) :
  dict_get (train_user d) u = Ok nb ->
  nilp nb || has (fun e => n_items <= e.1)%N nb ->
  (0 < n_epochs h)%N ->
  (forall (P : 'M[F]_(n_users, n_factors)) (Q : 'M[F]_(n_items, n_factors)),
     ALS_rating_update (reg h) (train_user d) Q P u = Raise IndexError) /\
  ~~ is_ok (ALS_rating_fit h d verbose).
Proof.
move=> ed bad epochs.
have raise (Q : 'M[F]_(n_items, n_factors)) :
  ALS_rating_solve_entity (n := n_users) (reg h) (train_user d) Q u
  = Raise IndexError.
  exact: (ALS_rating_solve_entity_raise n_users (reg h) Q ed bad).
split=> [P Q|]; first by rewrite /ALS_rating_update raise.
rewrite ALS_rating_fitE; case: (n_epochs h) epochs => // ne _.
set f0 := (_, _).
have : ~~ is_ok (iterM ne.+1 (ALS_rating_epoch (reg h) d) f0).
  apply: iterM_raise => t; rewrite /ALS_rating_epoch.
  have nok : ~~ is_ok (ALS_rating_solve_entity (n := n_users) (reg h)
                         (train_user d) t.2 u) by rewrite raise.
  have := sweep_raise t.1 (dict_get_keys ed) nok.
  rewrite /ALS_rating_user_sweep.
  have -> : foldM (ALS_rating_update (reg h) (train_user d) t.2) t.1
                  (keys (train_user d))
          = foldM (sweep_step (ALS_rating_solve_entity (reg h)
                     (train_user d) t.2)) t.1 (keys (train_user d)) by [].
  by case: (foldM _ _ _).
by case: (iterM _ _ _).
Qed.

Lemma ALS_ranking_9090_solve_entity_raise n m reg nbrs_of
    (Y : 'M[F]_(m, n_factors)) YtY u nb :
  dict_get nbrs_of u = Ok nb -> has (fun e => m <= e.1)%N nb ->
  ALS_ranking_9090_solve_entity (n := n) reg nbrs_of Y YtY u
  = Raise ValueError.
Proof.
move=> ed bad; rewrite /ALS_ranking_9090_solve_entity ed /=.
rewrite /csr_index all_map.
have /negbTE -> // : ~~ all (preim fst (fun j => j < m)%N) nb.
by rewrite -has_predC; apply: sub_has bad => e /=; rewrite -leqNgt.
Qed.

(** X10: fit of ALS_ranking_9090 returns no model when it runs at least one
    epoch and the dict of some user of train_user names an item at or beyond
    n_items: csr_matrix refuses the index with ValueError in the update of
    that user. *)
Theorem ALS_ranking_9090_fit_bad_neighbours (h : params) (d : dataset)
    (verbose : int) (u : nat) (nb : dict F) :
  dict_get (train_user d) u = Ok nb ->
  has (fun e => n_items <= e.1)%N nb ->
  (0 < n_epochs h)%N ->
  (forall (X : 'M[F]_(n_users, n_factors)) (Y : 'M[F]_(n_items, n_factors))
          YtY,
     ALS_ranking_9090_update (reg h) (train_user d) Y YtY X u
     = Raise ValueError) /\
  ~~ is_ok (ALS_ranking_9090_fit h d verbose).
Proof.
move=> ed bad epochs.
have raise (Y : 'M[F]_(n_items, n_factors)) YtY :
  ALS_ranking_9090_solve_entity (n := n_users) (reg h) (train_user d) Y YtY u
  = Raise ValueError.
  exact: (ALS_ranking_9090_solve_entity_raise n_users (reg h) Y YtY ed bad).
split=> [X Y YtY|]; first by rewrite /ALS_ranking_9090_update raise.
rewrite ALS_ranking_9090_fitE; case: (n_epochs h) epochs => // ne _.
set f0 := (_, _).
have : ~~ is_ok (iterM ne.+1 (ALS_ranking_9090_epoch (reg h) d) f0).
  apply: iterM_raise => t; rewrite /ALS_ranking_9090_epoch /=.
  have nok : ~~ is_ok (ALS_ranking_9090_solve_entity (n := n_users) (reg h)
                         (train_user d) t.2 (t.2^T *m t.2) u).
    by rewrite raise.
  have := sweep_raise t.1 (dict_get_keys ed) nok.
  have -> : foldM (sweep_step (ALS_ranking_9090_solve_entity (reg h)
                     (train_user d) t.2 (t.2^T *m t.2))) t.1
                  (keys (train_user d))
          = foldM (ALS_ranking_9090_update (reg h) (train_user d) t.2
                     (t.2^T *m t.2)) t.1 (keys (train_user d)) by [].
  by case: (foldM _ _ _).
by case: (iterM _ _ _).
Qed.

Lemma ALS_ranking_9090_solve_entity_empty n m reg nbrs_of
    (Y : 'M[F]_(m, n_factors)) YtY u (u' : 'I_n) x :
  dict_get nbrs_of u = Ok [::] ->
  ALS_ranking_9090_solve_entity reg nbrs_of Y YtY u = Ok (u', x) -> x = 0.
Proof.
move=> ed; rewrite /ALS_ranking_9090_solve_entity ed /=.
rewrite /csr_diag /csr_col /= !big_nil !(mul0mx, trmx0, mulmx0).
rewrite /linalg_solve; case: ifP => //= _.
by case: (index n u) => [w|] //= [_ <-]; rewrite mul0mx.
Qed.

Lemma ALS_ranking_9090_solve_entity_empty_ok n m reg nbrs_of
    (Y : 'M[F]_(m, n_factors)) u :
  dict_get nbrs_of u = Ok [::] -> (u < n)%N -> 0 < reg ->
  is_ok (ALS_ranking_9090_solve_entity (n := n) reg nbrs_of Y (Y^T *m Y) u).
Proof.
move=> ed ltun reg_gt0; rewrite /ALS_ranking_9090_solve_entity ed /=.
set b := (X in linalg_solve _ X).
have [|y -> _ /=] := linalg_solve_posdef b
  (proj2 (@weighted_ridge_spd _ _ Y [::] [::] reg _ reg_gt0)).
  by [].
by have [w -> _] := index_ok ltun.
Qed.

(** X11: in ALS_ranking_9090 a user of train_user whose dict is empty is no
    error: after an epoch its row is the zero vector, the solution of the
    system with right-hand side 0. *)
Theorem ALS_ranking_9090_no_neighbours_zero_row (reg : F) (d : dataset)
    (X X' : 'M[F]_(n_users, n_factors)) (Y Y' : 'M[F]_(n_items, n_factors))
    (u : nat) :
  uniq (keys (train_user d)) -> dict_get (train_user d) u = Ok [::] ->
  ALS_ranking_9090_epoch reg d (X, Y) = Ok (X', Y') ->
  exists2 u' : 'I_n_users, val u' = u & row u' X' = 0.
Proof.
move=> uu ed; rewrite /ALS_ranking_9090_epoch /=.
case eu: (foldM _ _ _) => [X1|] //=.
case ei: (foldM _ _ _) => [Y1|] //= [<- _].
have [] := sweepP
  (@ALS_ranking_9090_solve_entity_row _ _ reg _ Y (Y^T *m Y)) uu eu.
move=> /(_ u (dict_get_keys ed)) [u' [x [es erow]]] _.
exists u'; first exact: ALS_ranking_9090_solve_entity_row es.
by rewrite erow (ALS_ranking_9090_solve_entity_empty ed es).
Qed.

(* ----- the updated row minimises the ridge loss ----- *)

Lemma dot_mulmx k (x y : 'rV[F]_k) : dot x y = (x *m y^T) 0 0.
Proof. by rewrite /dot mxE; apply: eq_bigr => c _; rewrite mxE. Qed.

Lemma quad_outer k (r y : 'rV[F]_k) : quad (r^T *m r) y = dot y r ^+ 2.
Proof. by rewrite quad_gram /dot big_ord1 -dot_mulmx expr2. Qed.

Lemma dot_sumr k (T : Type) (s : seq T) (c : T -> F) (q : T -> 'rV[F]_k)
    (y : 'rV[F]_k) :
  dot y (\sum_(e <- s) c e *: q e) = \sum_(e <- s) c e * dot y (q e).
Proof.
rewrite !dot_mulmx linear_sum mulmx_sumr summxE; apply: eq_bigr => e _.
by rewrite dot_mulmx linearZ /= -scalemxAr mxE.
Qed.

Lemma gram_take_rows n k (a : 'M[F]_(n, k)) (idx : seq 'I_n) :
  (take_rows a idx)^T *m take_rows a idx
  = \sum_(i <- idx) (row i a)^T *m row i a.
Proof.
apply/matrixP => c1 c2; rewrite summxE big_tnth mxE; apply: eq_bigr => r _.
by rewrite !mxE big_ord1 !mxE.
Qed.

Lemma entry11_sub4 (yy xy yx xx : 'M[F]_1) :
  (yy - xy - (yx - xx)) 0 0 = yy 0 0 - xy 0 0 - (yx 0 0 - xx 0 0).
Proof. by rewrite !mxE. Qed.

Lemma normal_equations_minimise k (A : 'M[F]_k) (b x : 'rV[F]_k) :
  symmetric A -> (forall z, 0 <= quad A z) -> A *m x^T = b^T ->
  forall y, quad A x - dot x b *+ 2 <= quad A y - dot y b *+ 2.
Proof.
move=> symA pos eb y; rewrite -subr_ge0.
have ey : dot y b = (y *m A *m x^T) 0 0 by rewrite dot_mulmx -eb mulmxA.
have ex : dot x b = quad A x by rewrite dot_mulmx -eb mulmxA.
have exy : (x *m A *m y^T) 0 0 = (y *m A *m x^T) 0 0.
  rewrite -[x *m A *m y^T]trmxK [in LHS]mxE !trmx_mul trmxK symA mulmxA.
  by [].
have -> : quad A y - dot y b *+ 2 - (quad A x - dot x b *+ 2) = quad A (y - x).
  rewrite /quad linearB /= mulmxBl mulmxBr !mulmxBl ey ex.
  rewrite (entry11_sub4 (y *m A *m y^T)) exy -!/(quad A _).
  set p := (y *m A *m x^T) 0 0; set qx := quad A x; set qy := quad A y.
  have -> : qx - qx *+ 2 = - qx by rewrite mulr2n opprD addrA subrr sub0r.
  by rewrite mulr2n opprK opprB opprD !addrA [RHS]addrAC.
exact: pos.
Qed.

Lemma ridge_lossE m reg (Q : 'M[F]_(m, n_factors)) (nb : seq ('I_m * F)) y :
  ridge_loss reg Q nb y
  = \sum_(e <- nb) e.2 ^+ 2
    + (quad ((take_rows Q (unzip1 nb))^T *m take_rows Q (unzip1 nb)
             + reg *: 1%:M) y
       - dot y (\sum_(e <- nb) e.2 *: row e.1 Q) *+ 2).
Proof.
have e1 : \sum_(e <- nb) (e.2 - dot y (row e.1 Q)) ^+ 2
          = \sum_(e <- nb) e.2 ^+ 2
            - (\sum_(e <- nb) e.2 * dot y (row e.1 Q)) *+ 2
            + \sum_(e <- nb) dot y (row e.1 Q) ^+ 2.
  rewrite -sumrMnl -sumrB -big_split; apply: eq_bigr => e _.
  exact: sqrrB.
have e2 : quad ((take_rows Q (unzip1 nb))^T *m take_rows Q (unzip1 nb)) y
          = \sum_(e <- nb) dot y (row e.1 Q) ^+ 2.
  rewrite gram_take_rows big_map quad_sum; apply: eq_bigr => e _.
  exact: quad_outer.
rewrite /ridge_loss e1 quadD quadZ quad_dot e2 dot_sumr.
by rewrite -!addrA; congr (_ + _); rewrite addrC -!addrA.
Qed.

Lemma ridge_system_minimises m reg (Q : 'M[F]_(m, n_factors))
    (nb : seq ('I_m * F)) x :
  0 <= reg -> ridge_system reg Q nb x ->
  forall y, ridge_loss reg Q nb x <= ridge_loss reg Q nb y.
Proof.
move=> reg_ge0 sys y; rewrite !ridge_lossE lerD2l.
apply: normal_equations_minimise sys y.
  by apply: symmetricD; [exact: symmetric_gram | exact/symmetricZ/symmetric1].
move=> z; rewrite quadD quadZ quad_dot addr_ge0 ?quad_gram ?dot_self_ge0 //.
by rewrite mulr_ge0 // dot_self_ge0.
Qed.

(** X12: every row that an epoch of ALS_rating writes minimises the ridge
    loss of its entity: for a user u with neighbours I_u no vector x has a
    smaller sum_(i in I_u) (r_ui - x.Q[i])^2 + reg |x|^2 than the new row
    P[u], Q being the item matrix the epoch started from; for an item the
    same holds with the updated user matrix.  reg >= 0 is enough. *)
Theorem ALS_rating_update_minimises_ridge_loss (reg : F) (d : dataset)
    (P P' : 'M[F]_(n_users, n_factors)) (Q Q' : 'M[F]_(n_items, n_factors)) :
  dicts_of_dicts d -> 0 <= reg ->
  ALS_rating_epoch reg d (P, Q) = Ok (P', Q') ->
  (forall u nb, (u, nb) \in train_user d ->
     exists (u' : 'I_n_users) (nb' : seq ('I_n_items * F)),
       [/\ val u' = u, erase nb' = nb
         & forall y, ridge_loss reg Q nb' (row u' P') <= ridge_loss reg Q nb' y])
  /\
  (forall i nb, (i, nb) \in train_item d ->
     exists (i' : 'I_n_items) (nb' : seq ('I_n_users * F)),
       [/\ val i' = i, erase nb' = nb
         & forall y, ridge_loss reg P' nb' (row i' Q') <= ridge_loss reg P' nb' y]).
Proof.
move=> dd reg_ge0 /(ALS_rating_epochP dd) [_ _ Hu Hi]; split.
  move=> u nb /Hu [u' [nb' [vu enb sys]]]; exists u', nb'; split=> //.
  exact: ridge_system_minimises.
move=> i nb /Hi [i' [nb' [vi enb sys]]]; exists i', nb'; split=> //.
exact: ridge_system_minimises.
Qed.

(* ----- fit of ALS_ranking ----- *)

Local Notation implicit_arrays := (implicit_arrays F).
Local Notation wf_arrays := (@wf_arrays F n_users n_items).
Local Notation ALS_ranking_fit :=
  (ALS_ranking_fit truncated_normal_pu truncated_normal_qi).

Lemma np_where_lt (a : seq nat) x p : p \in np_where_eq a x -> (p < size a)%N.
Proof. by rewrite mem_filter mem_iota => /and3P []. Qed.

Lemma np_where_absent (a : seq nat) x : x \notin a -> np_where_eq a x = [::].
Proof.
move=> nin; apply/eqP; rewrite -size_eq0 size_filter -leqn0 leqNgt -has_count.
apply/hasPn => p; rewrite mem_iota add0n /= => ltp.
by apply: contra nin => /eqP <-; rewrite mem_nth.
Qed.

Lemma np_take_ok (T : Type) (x0 : T) (a : seq T) ps :
  all (fun p => p < size a)%N ps ->
  np_take x0 a ps = Ok [seq nth x0 a p | p <- ps].
Proof.
rewrite /np_take; elim: ps => [|p ps IH] //= /andP [-> /IH ->] //.
Qed.

Lemma np_takeP (T : Type) (x0 : T) (a : seq T) ps vs :
  np_take x0 a ps = Ok vs -> vs = [seq nth x0 a p | p <- ps].
Proof.
rewrite /np_take; elim: ps vs => [|p ps IH] vs /=; first by case.
case: ifP => // _ /=; case e: (mapM _ _) => [ws|] //= [<-].
by rewrite (IH _ e).
Qed.

Lemma linalg_inv_dotP k (a : 'M[F]_k) b x :
  linalg_inv_dot a b = Ok x -> a \in unitmx /\ x *m a^T = b.
Proof.
rewrite /linalg_inv_dot; case: ifP => // ua [<-]; split=> //.
by rewrite -trmx_mul mulmxA mulmxV // mul1mx trmxK.
Qed.

Lemma implicit_neighbours_keys own others (labels : seq F) u :
  keys (implicit_neighbours own others labels u)
  = [seq nth 0%N others p | p <- np_where_eq own u].
Proof. by rewrite /keys /implicit_neighbours -map_comp. Qed.

Lemma implicit_neighbours_values own others (labels : seq F) u :
  values (implicit_neighbours own others labels u)
  = [seq nth 0 labels p | p <- np_where_eq own u].
Proof. by rewrite /values /implicit_neighbours -map_comp. Qed.

Lemma ALS_ranking_solve_entity_row n m reg own others labels
    (other : 'M[F]_(m, n_factors)) u (u' : 'I_n) x :
  ALS_ranking_solve_entity reg own others labels other u = Ok (u', x) ->
  val u' = u.
Proof.
rewrite /ALS_ranking_solve_entity.
case: (np_take _ _ _) => [its|] //=; case: (np_take _ _ _) => [ls|] //=.
case: (mapM _ _) => [idx|] //=; case: (linalg_inv_dot _ _) => [y|] //=.
by case ei: (index n u) => [w|] //= [ew _]; rewrite -ew (indexP ei).
Qed.

Lemma ALS_ranking_solve_entityP n m reg own others labels
    (other : 'M[F]_(m, n_factors)) u (u' : 'I_n) x :
  ALS_ranking_solve_entity reg own others labels other u = Ok (u', x) ->
  exists nb' : seq ('I_m * F),
    [/\ val u' = u, erase nb' = implicit_neighbours own others labels u
      & ridge_system reg other nb' x].
Proof.
move=> eq_solve; have vu := ALS_ranking_solve_entity_row eq_solve.
move: eq_solve; rewrite /ALS_ranking_solve_entity.
case eits: (np_take _ _ _) => [its|] //=.
case els: (np_take _ _ _) => [ls|] //=.
case eidx: (mapM _ _) => [idx|] //=.
have vidx := mapM_indexP eidx.
set nb := implicit_neighbours own others labels u.
have kn : keys nb = its by rewrite implicit_neighbours_keys (np_takeP eits).
have vn : values nb = ls by rewrite implicit_neighbours_values (np_takeP els).
have sz : size ls = size idx.
  by rewrite -(size_map val idx) vidx -kn -vn !size_map.
case es: (linalg_inv_dot _ _) => [y|] //=; case: (index n u) => [w|] //= [_ <-].
exists (zip idx ls); split=> //.
  by rewrite -vn; apply: erase_zip; rewrite vidx kn.
have [_ eb] := linalg_inv_dotP es.
rewrite /ridge_system unzip1_zip ?sz // -weighted_row_sumE // -eb.
by rewrite trmx_mul trmxK.
Qed.

Lemma ALS_ranking_solve_entity_ok n m reg own others labels
    (other : 'M[F]_(m, n_factors)) u :
  size others = size own -> size labels = size own ->
  all (fun i => i < m)%N others -> (u < n)%N -> 0 < reg ->
  is_ok (ALS_ranking_solve_entity (n := n) reg own others labels other u).
Proof.
move=> so sl ltm ltu reg_gt0; rewrite /ALS_ranking_solve_entity.
have -> /= : np_take 0%N others (np_where_eq own u)
             = Ok [seq nth 0%N others p | p <- np_where_eq own u].
  by apply: np_take_ok; apply/allP => p /np_where_lt; rewrite so.
have -> /= : np_take 0 labels (np_where_eq own u)
             = Ok [seq nth 0 labels p | p <- np_where_eq own u].
  by apply: np_take_ok; apply/allP => p /np_where_lt; rewrite sl.
have [|idx -> _ /=] := @mapM_index_ok m
  [seq nth 0%N others p | p <- np_where_eq own u].
  rewrite all_map; apply/allP => p /np_where_lt ltp /=.
  by apply: (allP ltm); rewrite mem_nth ?so.
rewrite /linalg_inv_dot.
rewrite (posdef_unit (proj2 (gram_ridge_spd (take_rows other idx) reg_gt0))) /=.
by have [w -> _] := index_ok ltu.
Qed.

Lemma ALS_ranking_solve_entity_absent n m reg own others labels
    (other : 'M[F]_(m, n_factors)) u (u' : 'I_n) x :
  u \notin own ->
  ALS_ranking_solve_entity reg own others labels other u = Ok (u', x) ->
  x = 0.
Proof.
move=> /np_where_absent e0; rewrite /ALS_ranking_solve_entity e0 /=.
rewrite /linalg_inv_dot /weighted_row_sum big_ord0 trmx0 mulmx0 trmx0.
by case: ifP => //= _; case: (index n u) => [w|] //= [_ <-].
Qed.

Lemma ALS_ranking_fitE h d ia verbose :
  ALS_ranking_fit h d ia verbose
  = f <-- iterM (n_epochs h) (ALS_ranking_epoch (reg h) d ia)
               (truncated_normal_pu (seed h), truncated_normal_qi (seed h)) ;;
    Ok (Model h d (global_mean d) f.1 f.2,
        flatten [seq ALS_ranking_9090_report verbose e (task h)
                | e <- iota 1 (n_epochs h)]).
Proof.
rewrite /ALS_ranking_fit /ALS_ranking_loop_body loop_iterM size_iota.
by case: (iterM _ _ _).
Qed.

Lemma ALS_ranking_epoch_sweeps reg (d : dataset) (ia : implicit_arrays)
    (P P' : 'M[F]_(n_users, n_factors)) (Q Q' : 'M[F]_(n_items, n_factors)) :
  ALS_ranking_epoch reg d ia (P, Q) = Ok (P', Q') ->
  foldM (sweep_step
           (ALS_ranking_solve_entity reg (train_user_implicit ia)
              (train_item_implicit ia) (train_label_implicit ia) Q))
        P (keys (train_user d)) = Ok P' /\
  foldM (sweep_step
           (ALS_ranking_solve_entity reg (train_item_implicit ia)
              (train_user_implicit ia) (train_label_implicit ia) P'))
        Q (keys (train_item d)) = Ok Q'.
Proof.
rewrite /ALS_ranking_epoch /=.
case eu: (foldM _ _ _) => [P1|] //=.
case ei: (foldM _ _ _) => [Q1|] //= [eP eQ].
by rewrite -eP -eQ; split=> //; exact: ei.
Qed.

Lemma ALS_ranking_epoch_ok reg (d : dataset) (ia : implicit_arrays)
    (f : factors) :
  wf_arrays ia -> all (fun u => u < n_users)%N (keys (train_user d)) ->
  all (fun i => i < n_items)%N (keys (train_item d)) -> 0 < reg ->
  exists f', ALS_ranking_epoch reg d ia f = Ok f'.
Proof.
case/and4P=> /eqP si /eqP sl ltu lti ku ki reg_gt0.
rewrite /ALS_ranking_epoch.
have [P1 eP1] := sweep_ok
  (solve := ALS_ranking_solve_entity (n := n_users) reg
              (train_user_implicit ia) (train_item_implicit ia)
              (train_label_implicit ia) f.2) f.1
  (fun u (uin : u \in keys (train_user d)) =>
     ALS_ranking_solve_entity_ok f.2 si sl lti (allP ku _ uin) reg_gt0).
have -> /= : foldM (ALS_ranking_update reg (train_user_implicit ia)
               (train_item_implicit ia) (train_label_implicit ia) f.2)
               f.1 (keys (train_user d)) = Ok P1 by exact: eP1.
have sl' : size (train_label_implicit ia) = size (train_item_implicit ia).
  by rewrite sl si.
have [Q1 eQ1] := sweep_ok
  (solve := ALS_ranking_solve_entity (n := n_items) reg
              (train_item_implicit ia) (train_user_implicit ia)
              (train_label_implicit ia) P1) f.2
  (fun i (iin : i \in keys (train_item d)) =>
     ALS_ranking_solve_entity_ok P1 (esym si) sl' ltu (allP ki _ iin)
       reg_gt0).
have -> /= : foldM (ALS_ranking_update reg (train_item_implicit ia)
               (train_user_implicit ia) (train_label_implicit ia) P1)
               f.2 (keys (train_item d)) = Ok Q1 by exact: eQ1.
by exists (P1, Q1).
Qed.

(** X13: after an epoch of ALS_ranking the row of every user u of train_user
    solves, and so minimises the ridge loss of, the system
    (Q[I_u]^T Q[I_u] + reg I) x = sum_(i in I_u) l_ui Q[i] whose neighbours
    I_u and labels are read from the three parallel arrays at the positions
    where train_user_implicit is u, Q being the item matrix the epoch started
    from; the row of every item solves the system read at the positions where
    train_item_implicit is the item, built from the updated user matrix.
    With reg > 0, arrays of one length and numbers in range the epoch and fit
    return. *)
Theorem ALS_ranking_epoch_solves_ridge (h : params) (d : dataset)
    (ia : implicit_arrays) (verbose : int)
    (P : 'M[F]_(n_users, n_factors)) (Q : 'M[F]_(n_items, n_factors)) :
  uniq (keys (train_user d)) -> uniq (keys (train_item d)) ->
  (forall P' Q', ALS_ranking_epoch (reg h) d ia (P, Q) = Ok (P', Q') ->
     (forall u, u \in keys (train_user d) ->
        exists (u' : 'I_n_users) (nb' : seq ('I_n_items * F)),
          [/\ val u' = u,
              erase nb' = implicit_neighbours (train_user_implicit ia)
                            (train_item_implicit ia)
                            (train_label_implicit ia) u,
              ridge_system (reg h) Q nb' (row u' P')
            & 0 <= reg h ->
              forall y, ridge_loss (reg h) Q nb' (row u' P')
                        <= ridge_loss (reg h) Q nb' y]) /\
     (forall i, i \in keys (train_item d) ->
        exists (i' : 'I_n_items) (nb' : seq ('I_n_users * F)),
          [/\ val i' = i,
              erase nb' = implicit_neighbours (train_item_implicit ia)
                            (train_user_implicit ia)
                            (train_label_implicit ia) i,
              ridge_system (reg h) P' nb' (row i' Q')
            & 0 <= reg h ->
              forall y, ridge_loss (reg h) P' nb' (row i' Q')
                        <= ridge_loss (reg h) P' nb' y])) /\
  (wf_arrays ia -> all (fun u => u < n_users)%N (keys (train_user d)) ->
   all (fun i => i < n_items)%N (keys (train_item d)) -> 0 < reg h ->
   (exists f', ALS_ranking_epoch (reg h) d ia (P, Q) = Ok f') /\
   (exists ml, ALS_ranking_fit h d ia verbose = Ok ml)).
Proof.
move=> uu ui; split.
  move=> P' Q' /ALS_ranking_epoch_sweeps [eu ei]; split.
    move=> u uin.
    have [] := sweepP (@ALS_ranking_solve_entity_row _ _ (reg h) _ _ _ Q) uu eu.
    move=> /(_ u uin) [u' [x [es erow]]] _.
    have [nb' [vu enb sys]] := ALS_ranking_solve_entityP es.
    exists u', nb'; rewrite erow; split=> // reg_ge0.
    exact: ridge_system_minimises.
  move=> i iin.
  have [] := sweepP (@ALS_ranking_solve_entity_row _ _ (reg h) _ _ _ P') ui ei.
  move=> /(_ i iin) [i' [x [es erow]]] _.
  have [nb' [vi enb sys]] := ALS_ranking_solve_entityP es.
  exists i', nb'; rewrite erow; split=> // reg_ge0.
  exact: ridge_system_minimises.
move=> wfa ku ki reg_gt0.
have epoch_ok (f : factors) :
    exists f', ALS_ranking_epoch (reg h) d ia f = Ok f'.
  exact: ALS_ranking_epoch_ok.
split; first exact: epoch_ok.
rewrite ALS_ranking_fitE.
have [f ->] := iterM_ok (n_epochs h)
  (truncated_normal_pu (seed h), truncated_normal_qi (seed h)) epoch_ok.
by eexists.
Qed.

(** X14: in ALS_ranking a key of train_user that occurs nowhere in
    train_user_implicit is no error: its system has no neighbour, and after
    an epoch its row is the zero vector. *)
Theorem ALS_ranking_absent_entity_zero_row (reg : F) (d : dataset)
    (ia : implicit_arrays)
    (P P' : 'M[F]_(n_users, n_factors)) (Q Q' : 'M[F]_(n_items, n_factors))
    (u : nat) :
  uniq (keys (train_user d)) -> u \in keys (train_user d) ->
  u \notin train_user_implicit ia ->
  ALS_ranking_epoch reg d ia (P, Q) = Ok (P', Q') ->
  exists2 u' : 'I_n_users, val u' = u & row u' P' = 0.
Proof.
move=> uu uin absent /ALS_ranking_epoch_sweeps [eu _].
have [] := sweepP (@ALS_ranking_solve_entity_row _ _ reg _ _ _ Q) uu eu.
move=> /(_ u uin) [u' [x [es erow]]] _.
exists u'; first exact: ALS_ranking_solve_entity_row es.
by rewrite erow (ALS_ranking_solve_entity_absent absent es).
Qed.

(* ----- what the implicit variant minimises ----- *)

Lemma quad_gram_rows m k (Y : 'M[F]_(m, k)) (y : 'rV[F]_k) :
  quad (Y^T *m Y) y = \sum_(i < m) dot y (row i Y) ^+ 2.
Proof.
rewrite quad_gram /dot; apply: eq_bigr => i _.
rewrite -expr2; congr (_ ^+ 2); rewrite mxE; apply: eq_bigr => c _.
by rewrite !mxE.
Qed.

Lemma weighted_lossE m reg (Q : 'M[F]_(m, n_factors)) (nb : seq ('I_m * F)) y :
  weighted_loss reg Q nb y
  = quad (Q^T *m Q
          + \sum_(e <- nb) (10%:R * e.2) *: ((row e.1 Q)^T *m row e.1 Q)
          + reg *: 1%:M) y
    - dot y (\sum_(e <- nb) (10%:R * e.2) *: row e.1 Q) *+ 2.
Proof.
rewrite /weighted_loss !quadD quadZ quad_dot quad_gram_rows quad_sum.
rewrite dot_sumr -sumrMnl big_split /= sumrN.
rewrite (eq_bigr _ (fun e _ => quadZ (10%:R * e.2) _ y)).
rewrite (eq_bigr _ (fun e _ => congr1 (fun z => 10%:R * e.2 * z)
                                 (quad_outer (row e.1 Q) y))).
by rewrite -!addrA; congr (_ + _); congr (_ + _); rewrite addrC.
Qed.

Lemma weighted_ridge_system_minimises m reg (Q : 'M[F]_(m, n_factors))
    (nb : seq ('I_m * F)) x :
  0 <= reg -> all (fun e => 0 <= e.2) nb ->
  weighted_ridge_system reg Q nb x ->
  forall y, weighted_loss reg Q nb x <= weighted_loss reg Q nb y.
Proof.
move=> reg_ge0 /allP nn sys y; rewrite !weighted_lossE.
apply: normal_equations_minimise sys y.
  apply: symmetricD; last exact/symmetricZ/symmetric1.
  apply: symmetricD; first exact: symmetric_gram.
  by apply: symmetric_sum => e; apply/symmetricZ/symmetric_gram.
move=> z; rewrite !quadD quadZ quad_dot !addr_ge0 //.
- by rewrite quad_gram dot_self_ge0.
- rewrite quad_sum big_seq sumr_ge0 // => e ein; rewrite quadZ mulr_ge0 //.
    by rewrite mulr_ge0 ?ler0n // nn.
  exact: quad_outer_ge0.
- by rewrite mulr_ge0 // dot_self_ge0.
Qed.

(** X15: every row that an epoch of ALS_ranking_9090 writes minimises the
    weighted loss of its entity, provided reg >= 0 and no label of the entity
    is negative: for a user u no vector x has a smaller
    sum_(all i) (x.Y[i])^2 + sum_(i in I_u) (c_ui (x.Y[i])^2 - 2 c_ui x.Y[i])
    + reg |x|^2, c_ui = 10 l_ui, than the new row X[u]; for an item the same
    holds with the updated user matrix. *)
Theorem ALS_ranking_9090_update_minimises_weighted_loss (reg : F)
    (d : dataset)
    (X X' : 'M[F]_(n_users, n_factors)) (Y Y' : 'M[F]_(n_items, n_factors)) :
  dicts_of_dicts d -> 0 <= reg ->
  nonneg_labels (train_user d) -> nonneg_labels (train_item d) ->
  ALS_ranking_9090_epoch reg d (X, Y) = Ok (X', Y') ->
  (forall u nb, (u, nb) \in train_user d ->
     exists (u' : 'I_n_users) (nb' : seq ('I_n_items * F)),
       [/\ val u' = u, erase nb' = nb
         & forall y, weighted_loss reg Y nb' (row u' X')
                     <= weighted_loss reg Y nb' y])
  /\
  (forall i nb, (i, nb) \in train_item d ->
     exists (i' : 'I_n_items) (nb' : seq ('I_n_users * F)),
       [/\ val i' = i, erase nb' = nb
         & forall y, weighted_loss reg X' nb' (row i' Y')
                     <= weighted_loss reg X' nb' y]).
Proof.
move=> dd reg_ge0 /allP nnu /allP nni /(ALS_ranking_9090_epochP dd) [_ _ Hu Hi].
have erase_nn k (nb' : seq ('I_k * F)) nb :
    erase nb' = nb -> all (fun x => 0 <= x.2) nb -> all (fun e => 0 <= e.2) nb'.
  by move=> <-; rewrite /erase all_map.
split.
  move=> u nb uin; have [u' [nb' [vu enb sys]]] := Hu u nb uin.
  exists u', nb'; split=> //; apply: weighted_ridge_system_minimises => //.
  exact: erase_nn enb (nnu _ uin).
move=> i nb iin; have [i' [nb' [vi enb sys]]] := Hi i nb iin.
exists i', nb'; split=> //; apply: weighted_ridge_system_minimises => //.
exact: erase_nn enb (nni _ iin).
Qed.

(* ----- the initial user matrix ----- *)

Section SweepAgree.

Variables (n k : nat) (solve : nat -> result ('I_n * 'rV[F]_k)).
Hypothesis solve_row : forall u u' x, solve u = Ok (u', x) -> val u' = u.

Local Notation sweep_step := (sweep_step solve).

Lemma sweep_agree us (a1 a2 : 'M[F]_(n, k)) :
  (forall r : 'I_n, val r \notin us -> row r a1 = row r a2) ->
  foldM sweep_step a1 us = foldM sweep_step a2 us.
Proof.
elim: us a1 a2 => [|u us IH] a1 a2 agree /=.
  by congr Ok; apply/row_matrixP => r; apply: agree.
rewrite /sweep_step; case es: (solve u) => [[u' x]|] //=.
apply: IH => r nin; rewrite !row_set_row; case: eqP => // neq.
apply: agree; rewrite inE negb_or nin andbT -(solve_row es).
by apply/eqP => /val_inj.
Qed.

End SweepAgree.

Lemma ALS_rating_epoch_initial_pu reg (d : dataset)
    (P1 P2 : 'M[F]_(n_users, n_factors)) (Q : 'M[F]_(n_items, n_factors)) :
  all (fun u => u \in keys (train_user d)) (iota 0 n_users) ->
  ALS_rating_epoch reg d (P1, Q) = ALS_rating_epoch reg d (P2, Q).
Proof.
move=> /allP cover; rewrite /ALS_rating_epoch /=.
have -> // : ALS_rating_user_sweep reg d Q P1 = ALS_rating_user_sweep reg d Q P2.
apply: (sweep_agree (@ALS_rating_solve_entity_row _ _ reg _ Q)) => r.
by rewrite cover // mem_iota add0n /=.
Qed.

(* ----- fit: the evaluations it requests ----- *)

Lemma flatten_map_if (T : Type) (p : pred nat) (r : nat -> T) (es : seq nat) :
  flatten [seq (if p e then [:: r e] else [::]) | e <- es]
  = [seq r e | e <- es & p e].
Proof. by elim: es => [|e es IH] //=; case: (p e); rewrite /= IH. Qed.

Lemma flatten_map_nil (T : Type) (es : seq nat) :
  flatten [seq ([::] : seq T) | e <- es] = [::].
Proof. by elim: es. Qed.

Lemma size_multiples_of_5 n :
  size [seq e <- iota 1 n | (e %% 5 == 0)%N] = (n %/ 5)%N.
Proof.
elim: n => [|n IH] //; rewrite -{1}(addn1 n) iotaD filter_cat size_cat IH /=.
by rewrite add1n divnS // addnC /dvdn; case: (_ == _).
Qed.

Lemma ALS_ranking_9090_fit_ok h d verbose :
  wf_dataset d -> nonneg_labels (train_user d) ->
  nonneg_labels (train_item d) -> 0 < reg h ->
  exists ml, ALS_ranking_9090_fit h d verbose = Ok ml.
Proof.
move=> wf nnu nni reg_gt0; rewrite ALS_ranking_9090_fitE.
have [f ->] := iterM_ok (n_epochs h)
  (truncated_normal_pu (seed h), truncated_normal_qi (seed h))
  (fun f => ALS_ranking_9090_epoch_ok f wf nnu nni reg_gt0).
by eexists.
Qed.

(** X17: when fit of ALS_rating returns, it has requested no evaluation if
    verbose <= 0; with verbose > 0 and the task rating it has requested rmse
    at exactly the epochs of 1..n_epochs that are multiples of 5, in their
    order, and with the task ranking MAP@5 at the same epochs; in every case
    there are at most n_epochs // 5 requests. *)
Theorem ALS_rating_fit_reports (h : params) (d : dataset) (verbose : int)
    (m : model) (log : seq report) :
  ALS_rating_fit h d verbose = Ok (m, log) ->
  [/\ verbose <= 0 -> log = [::],
      0 < verbose -> task h = "rating"%string ->
      log = [seq Report_rmse e | e <- iota 1 (n_epochs h) & (e %% 5 == 0)%N],
      0 < verbose -> task h = "ranking"%string ->
      log = [seq Report_MAP_at_k e
            | e <- iota 1 (n_epochs h) & (e %% 5 == 0)%N]
    & (size log <= n_epochs h %/ 5)%N].
Proof.
rewrite ALS_rating_fitE; case: (iterM _ _ _) => [f|] //= [_ <-].
rewrite /ALS_rating_report; split.
- by rewrite leNgt => /negbTE ->; rewrite /= flatten_map_nil.
- move=> -> ->; elim: (iota 1 _) => [|e es IH] //=.
  by rewrite IH andbT; case: (e %% 5 == 0)%N.
- move=> -> ->; elim: (iota 1 _) => [|e es IH] //=.
  by rewrite IH andbT; case: (e %% 5 == 0)%N.
- rewrite -size_multiples_of_5; elim: (iota 1 _) => [|e es IH] //=.
  rewrite size_cat; case: (e %% 5 == 0)%N; rewrite ?andbF ?andbT //=.
  by case: ifP => _; [|case: ifP => _]; rewrite /= ?add1n ?add0n ?ltnS // ltnW.
Qed.

(** X18: when fit of ALS_ranking or of ALS_ranking_9090 returns, it has
    requested no evaluation if verbose <= 0; with verbose > 0 it has
    requested one after every epoch, epoch % 1 being 0 always: rmse with the
    task rating, accuracy with the task ranking. *)
Theorem ALS_ranking_fit_reports (h : params) (d : dataset)
    (ia : implicit_arrays) (verbose : int) (m : model) (log : seq report) :
  ALS_ranking_fit h d ia verbose = Ok (m, log) \/
  ALS_ranking_9090_fit h d verbose = Ok (m, log) ->
  [/\ verbose <= 0 -> log = [::],
      0 < verbose -> task h = "rating"%string ->
      log = [seq Report_rmse e | e <- iota 1 (n_epochs h)]
    & 0 < verbose -> task h = "ranking"%string ->
      log = [seq Report_accuracy e | e <- iota 1 (n_epochs h)]].
Proof.
have rep : log = flatten [seq ALS_ranking_9090_report verbose e (task h)
                         | e <- iota 1 (n_epochs h)] ->
  [/\ verbose <= 0 -> log = [::],
      0 < verbose -> task h = "rating"%string ->
      log = [seq Report_rmse e | e <- iota 1 (n_epochs h)]
    & 0 < verbose -> task h = "ranking"%string ->
      log = [seq Report_accuracy e | e <- iota 1 (n_epochs h)]].
  move=> ->; rewrite /ALS_ranking_9090_report; split.
  - by rewrite leNgt => /negbTE ->; rewrite /= flatten_map_nil.
  - by move=> -> -> /=; elim: (iota 1 _) => [|e es IH] //=; rewrite modn1 /= IH.
  - by move=> -> -> /=; elim: (iota 1 _) => [|e es IH] //=; rewrite modn1 /= IH.
case; [rewrite ALS_ranking_fitE | rewrite ALS_ranking_9090_fitE];
  by case: (iterM _ _ _) => [f|] //= [_ /esym]; apply: rep.
Qed.

End Theory.

(* ----- the draw of the initial user matrix ----- *)

Section InitialDraw.

Variable F : realFieldType.
Variables n_users n_items n_factors : nat.
Variables tn_pu tn_pu' : nat -> 'M[F]_(n_users, n_factors).
Variable tn_qi : nat -> 'M[F]_(n_items, n_factors).

(** X16: when every user number below n_users is a key of train_user, the
    first user sweep overwrites the whole user matrix: an epoch of ALS_rating
    gives the same result from any two user matrices, and fit with at least
    one epoch returns the same model and reports whatever truncated_normal
    draws for the user matrix. *)
Theorem ALS_rating_fit_forgets_initial_pu (h : params F) (d : dataset F)
    (verbose : int) (P1 P2 : 'M[F]_(n_users, n_factors))
    (Q : 'M[F]_(n_items, n_factors)) :
  all (fun u => u \in keys (train_user d)) (iota 0 n_users) ->
  ALS_rating_epoch (reg h) d (P1, Q) = ALS_rating_epoch (reg h) d (P2, Q) /\
  ((0 < n_epochs h)%N ->
   ALS_rating_fit tn_pu tn_qi h d verbose
   = ALS_rating_fit tn_pu' tn_qi h d verbose).
Proof.
move=> cover; split; first exact: ALS_rating_epoch_initial_pu.
rewrite /ALS_rating_fit /ALS_rating_loop_body !loop_iterM size_iota.
case: (n_epochs h) => // ne _ /=.
by rewrite (ALS_rating_epoch_initial_pu (reg h) (tn_pu (seed h))
             (tn_pu' (seed h)) (tn_qi (seed h)) cover).
Qed.

End InitialDraw.

Section ExampleTheory.

Variable F : realFieldType.

Local Notation ex_dataset := (ex_dataset F).
Local Notation ex_choice := (@ex_choice F).

Lemma id_perm (s : seq nat) : perm_eq (id s) s.
Proof. exact: perm_refl. Qed.

Lemma ex_choice_short a (n : int) (p : seq F) g :
  Posz (size a) < n -> (ex_choice a n p g).1 = Raise ValueError.
Proof. by case: n => //= k; rewrite ltz_nat ltnNge => /negbTE ->. Qed.

Lemma ex_choice_sample a (n : int) (p : seq F) g :
  uniq a -> 0 <= n -> n <= Posz (size a) -> size p = size a ->
  all (fun x => 0 < x) p -> \sum_(x <- p) x = 1 ->
  exists items,
    [/\ (ex_choice a n p g).1 = Ok items, uniq items,
        Posz (size items) = n & {subset items <= a}].
Proof.
move=> ua; case: n => // k _; rewrite lez_nat => lek _ _ _.
exists (take k a); rewrite /= lek; split=> //; first exact: take_uniq.
  by rewrite size_takel.
by move=> x /mem_take.
Qed.

Lemma ex_dataset_wf : wf_dataset 1 3 ex_dataset.
Proof. by []. Qed.

Lemma ex_dataset_nonneg :
  nonneg_labels (train_user ex_dataset) /\ nonneg_labels (train_item ex_dataset).
Proof. by rewrite /nonneg_labels /= !ler0n. Qed.

Lemma ex_dot (vals : seq F) (u : 'I_1) (i : 'I_3) :
  dot (row u (pu (ex_model vals))) (row i (qi (ex_model vals)))
  = nth 0 vals i.
Proof. by rewrite /dot big_ord1 !mxE mul1r. Qed.

Lemma clip_inside (x lo hi : F) : lo <= x -> x <= hi -> clip x lo hi = x.
Proof. by move=> lox xhi; rewrite /clip max_l // min_l. Qed.

Lemma clip_below (x lo hi : F) : x <= lo -> lo <= hi -> clip x lo hi = lo.
Proof. by move=> xlo lohi; rewrite /clip max_r // min_l. Qed.

(* the scored candidates of user 0: items 0 and 1 *)
Lemma ex_rank predict (vals : seq F) :
  unlabled_rank id predict (ex_model vals) 0
  = Ok [:: (0%N, clip (nth 0 vals 0) 1 5); (1%N, clip (nth 0 vals 1) 1 5)].
Proof.
have [rank er] :=
  @unlabled_rank_ok F 1 3 1 id id_perm predict (ex_model vals) 0 _ erefl isT.
rewrite er; have [nbrs [u' [idx [[<-] _ /= vidx ->]]]] := unlabled_rankP id_perm er.
case: idx vidx => [|i0 [|i1 [|i2 idx]]] //= [v0 v1].
by rewrite /clipped_score !ex_dot v0 v1.
Qed.

End ExampleTheory.

(* ===================================================================== *)
(* The ranker of ALS_ranking at the example                              *)
(* ===================================================================== *)

(** C8: with the user row (1) and the item rows (-1), (1), (0), user 0 having
    rated item 2, recommend_user of ALS_ranking in deterministic mode returns
    item 0 before item 1, both with score 1, and item 0 alone as the top 1,
    although the dot product, and with it the probability sigmoid(dot), of
    item 1 is the larger one: the ranker clips the dot products to [1, 5]
    and never looks at the probability. *)
Theorem ALS_ranking_recommend_user_ignores_probability (F : realFieldType)
    (rng : Type)
    (random_choice : seq nat -> int -> seq F -> rng -> result (seq nat) * rng)
    (exp : F -> F) (g : rng) :
  let m := ex_model [:: -1; 1; 0] in
  let i0 : 'I_3 := Ordinal (isT : (0 < 3)%N) in
  let i1 : 'I_3 := Ordinal (isT : (1 < 3)%N) in
  let d0 := dot (row ord0 (pu m)) (row i0 (qi m)) in
  let d1 := dot (row ord0 (pu m)) (row i1 (qi m)) in
  [/\ ALS_ranking_recommend_user id random_choice exp m 0 2 false g
      = (Ok [:: (0%N, 1); (1%N, 1)], g),
      ALS_ranking_recommend_user id random_choice exp m 0 1 false g
      = (Ok [:: (0%N, 1)], g),
      d0 < d1
    & (forall z, 0 < exp z) -> (forall a b, a < b -> exp a < exp b) ->
      sigmoid exp d0 < sigmoid exp d1].
Proof.
move=> m i0 i1 d0 d1.
have lt01 : d0 < d1.
  by rewrite /d0 /d1 !ex_dot /=; apply: lt_trans ltr01; rewrite oppr_lt0 ltr01.
have er := ex_rank (ALS_ranking_predict exp) [:: -1; 1; 0].
have c0 : clip (-1 : F) 1 5 = 1.
  apply: clip_below; last by rewrite (ler_nat _ 1 5).
  by apply: le_trans ler01; rewrite oppr_le0 ler01.
have c1 : clip (1 : F) 1 5 = 1.
  by apply: clip_inside => //; rewrite (ler_nat _ 1 5).
split=> //.
- rewrite /ALS_ranking_recommend_user /recommend_user er /= c0 c1.
  by rewrite /sort /= lexx.
- rewrite /ALS_ranking_recommend_user /recommend_user er /= c0 c1.
  by rewrite /sort /= lexx.
- by move=> exp_gt0 exp_mono; apply: sigmoid_increasing.
Qed.

(* ===================================================================== *)
(* Instances over the rationals                                          *)
(* ===================================================================== *)

Lemma neg_label_matrixE : neg_label_matrix = (1 - 10%:R + 1)%:M.
Proof.
rewrite /neg_label_matrix /ycy_reg /csr_diag /= big_cons big_nil addr0.
rewrite trmx1 !mulmx1 mul1mx mulN1r scale1r.
apply/matrixP => i j; rewrite !mxE !ord1 eqxx /= !mulr1n.
by rewrite mulr1.
Qed.

(** C3, the claim as stated fails: for the entity of the implicit variant
    with one neighbour, item row (1), label -1 and reg = 1 > 0 the matrix
    ycy_reg is (-8), which is not positive definite. *)
Lemma ycy_reg_negative_label_not_spd :
  (0 < (1 : rat)) /\ ~ spd neg_label_matrix.
Proof.
split=> // -[_ pd].
have /pd : (1%:M : 'rV[rat]_1) != 0.
  by apply/eqP => /matrixP /(_ ord0 ord0); rewrite !mxE /= => /eqP; rewrite oner_eq0.
rewrite /quad neg_label_matrixE mul1mx trmx1 mulmx1 mxE eqxx mulr1n.
by rewrite -addrA addrC -addrA (_ : 1 + 1 = 2%:R :> rat) // subr_gt0 ltr_nat.
Qed.

(** C9, the claim as stated fails: __init__ accepts the task string foo, and
    fit with it trains on the example dataset and returns a model. *)
Lemma ALS_rating_accepts_unknown_task :
  [/\ String.eqb "foo" "rating" = false, String.eqb "foo" "ranking" = false,
      is_ok (__init__ 1 (1 : rat) "foo" 42)
    & is_ok (ALS_rating_fit (fun _ => ex_pu rat) (fun _ => ex_qi [:: 1; 1; 1])
               (Params 1 (1 : rat) "foo" 42) (ex_dataset rat) 1)].
Proof.
split=> //.
have [ml -> //] := @ALS_rating_fit_ok rat 1 3 1 (fun _ => ex_pu rat)
  (fun _ => ex_qi [:: 1; 1; 1]) (Params 1 (1 : rat) "foo" 42) (ex_dataset rat)
  1 (ex_dataset_wf rat) ltr01.
Qed.

(* ----- the theorems at the example ----- *)

Lemma ALS_rating_fit_alternates_witness :
  dicts_of_dicts (ex_dataset rat) /\
  (exists ml, ALS_rating_fit (fun _ => ex_pu rat) (fun _ => ex_qi [:: 1; 1; 1])
                (ex_params rat "rating") (ex_dataset rat) 1 = Ok ml).
Proof.
split=> //.
have [_ _ ok] := @ALS_rating_fit_alternates rat 1 3 1 (fun _ => ex_pu rat)
  (fun _ => ex_qi [:: 1; 1; 1]) (ex_params rat "rating") (ex_dataset rat) 1
  (ex_pu rat) (ex_qi [:: 1; 1; 1]) isT.
by case: (ok (ex_dataset_wf rat) ltr01).
Defined.

Lemma ALS_ranking_9090_weighted_ridge_witness :
  dicts_of_dicts (ex_dataset rat) /\
  (exists ml, ALS_ranking_9090_fit (fun _ => ex_pu rat)
                (fun _ => ex_qi [:: 1; 1; 1])
                (ex_params rat "ranking") (ex_dataset rat) 1 = Ok ml).
Proof.
split=> //.
have [_ _ _ ok] := @ALS_ranking_9090_weighted_ridge rat 1 3 1
  (fun _ => ex_pu rat) (fun _ => ex_qi [:: 1; 1; 1]) (ex_params rat "ranking")
  (ex_dataset rat) 1 (ex_pu rat) (ex_qi [:: 1; 1; 1]) isT.
have [nnu nni] := ex_dataset_nonneg rat.
by case: (ok (ex_dataset_wf rat) nnu nni ltr01).
Defined.

Lemma normal_equations_spd_witness :
  (0 < (1 : rat)) /\
  spd (yy_reg 1 (ex_qi [:: 1; 1; 1 : rat]) [:: ord0; ord_max]).
Proof.
split=> //.
by have [] := @normal_equations_spd rat 1 3 1 (ex_qi [:: 1; 1; 1])
  [:: ord0; ord_max] [:: 3; 3] ltr01.
Defined.

Lemma ALS_rating_predict_cold_start_witness :
  (Posz 1 <= 5) || (Posz 3 <= 0 :> int) /\
  ALS_rating_predict (ex_model [:: 1; 1; 1 : rat]) 5 0 = Ok 3.
Proof.
split=> //.
by have [] := @ALS_rating_predict_cold_start rat 1 3 1 (fun _ => ex_pu rat)
  (fun _ => ex_qi [:: 1; 1; 1]) (ex_model [:: 1; 1; 1]) 5 0 isT.
Defined.

Lemma ALS_rating_predict_in_clip_range_witness :
  (1 <= default_prediction (ex_model [:: 1; 1; 1 : rat]) <= 5) /\
  (exists2 r, ALS_rating_predict (ex_model [:: 1; 1; 1 : rat]) 7 (-1) = Ok r
            & 1 <= r <= 5).
Proof.
have dflt : 1 <= default_prediction (ex_model [:: 1; 1; 1 : rat]) <= 5.
  by rewrite /= ler_nat.
split=> //.
exact: (@ALS_rating_predict_in_clip_range rat 1 3 1 (ex_model [:: 1; 1; 1])
          7 (-1) dflt).
Defined.

Lemma ALS_rating_recommend_user_top_n_witness :
  exists recs,
    [/\ ALS_rating_recommend_user id (@ex_choice rat)
          (ex_model [:: 4; 5; 0 : rat]) 0 2 false tt = (Ok recs, tt),
        Posz (size recs) <= 2,
        all (fun e => e.1 \notin [:: 2%N]) recs
      & sorted (fun a b : nat * rat => b.2 <= a.2) recs].
Proof.
exact: (@ALS_rating_recommend_user_top_n rat 1 3 1 unit id (@ex_choice rat)
          id_perm (ex_model [:: 4; 5; 0]) 0 [:: (2%N, 3)] 2 tt erefl isT isT).
Defined.

Lemma ALS_rating_recommend_user_weighted_random_witness :
  let rank := [:: (0%N, clip (4 : rat) 1 5); (1%N, clip (5 : rat) 1 5)] in
  let cands := [seq e <- rank | 4 <= e.2] in
  [/\ unlabled_rank id (@ALS_rating_predict rat 1 3 1)
        (ex_model [:: 4; 5; 0]) 0 = Ok rank,
      size cands = 2%N,
      exists2 recs,
        (ALS_rating_recommend_user id (@ex_choice rat)
           (ex_model [:: 4; 5; 0]) 0 2 true tt).1 = Ok recs
        & perm_eq recs cands
    & (ALS_rating_recommend_user id (@ex_choice rat)
         (ex_model [:: 4; 5; 0]) 0 3 true tt).1 = Raise ValueError].
Proof.
move=> rank cands.
have er := ex_rank (@ALS_rating_predict rat 1 3 1) [:: 4; 5; 0].
have sz2 : size cands = 2%N.
  by rewrite /cands /rank !clip_inside.
have [_ _ _ two three] :=
  @ALS_rating_recommend_user_weighted_random rat 1 3 1 unit id
    (@ex_choice rat) id_perm (@ex_choice_short rat) (@ex_choice_sample rat)
    (ex_model [:: 4; 5; 0]) 0 rank tt er.
by split=> //; [exact: two | exact: three].
Defined.

(* ----- the further properties at the examples ----- *)
Lemma ex_exp_gt0 (F : realFieldType) (x : F) : 0 < ex_exp x.
Proof.
rewrite /ex_exp; case: ifP => [x_ge0|/negbT]; first exact: ltr_wpDr.
by rewrite -ltNge => x_lt0; rewrite invr_gt0 subr_gt0 (lt_trans x_lt0).
Qed.

Lemma ex_exp0 (F : realFieldType) : ex_exp (0 : F) = 1.
Proof. by rewrite /ex_exp lexx addr0. Qed.

Lemma ex_exp_le (F : realFieldType) (x y : F) :
  (ex_exp x <= ex_exp y) = (x <= y).
Proof.
have inv_lt1 (z : F) : z < 0 -> (1 - z)^-1 < 1.
  by move=> z_lt0; rewrite invf_lt1 ?subr_gt0 ?(lt_trans z_lt0) // ltrDl oppr_gt0.
rewrite /ex_exp; case: (leP 0 x) => [x_ge0|x_lt0]; case: (leP 0 y) => [y_ge0|y_lt0].
- by rewrite lerD2l.
- rewrite leNgt (lt_le_trans (inv_lt1 _ y_lt0)) ?lerDl //.
  by rewrite leNgt (lt_le_trans y_lt0).
- rewrite (le_trans (ltW (inv_lt1 _ x_lt0))) ?lerDl //.
  by rewrite (le_trans (ltW x_lt0)).
- rewrite lef_pV2 ?posrE ?subr_gt0 ?(lt_trans x_lt0) ?(lt_trans y_lt0) //.
  by rewrite lerD2l lerN2.
Qed.


Lemma recommend_user_no_cold_start_witness :
  [/\ dict_get (train_user (data (ex_model_late rat))) 1 = Ok [:: (2%N, 3)],
      (1 <= 1)%N,
      ALS_rating_recommend_user id (@ex_choice rat) (ex_model_late rat) 1 2
        false tt = (Raise IndexError, tt)
    & ALS_ranking_recommend_user id (@ex_choice rat) (@ex_exp rat)
        (ex_model_late rat) 1 2 false tt = (Raise IndexError, tt)].
Proof.
have [e1 e2] := @recommend_user_no_cold_start rat 1 3 1 unit id
  (@ex_choice rat) (@ex_exp rat) id_perm (ex_model_late rat) 1
  [:: (2%N, 3)] 2 false tt erefl isT.
by split.
Defined.

Lemma recommend_user_never_calls_predict_witness :
  (forall s : seq nat, perm_eq (id s) s) /\
  ALS_ranking_recommend_user id (@ex_choice rat) (@ex_exp rat)
    (ex_model [:: 4; 5; 0]) 0 2 false tt
  = ALS_rating_recommend_user id (@ex_choice rat) (ex_model [:: 4; 5; 0]) 0 2
      false tt.
Proof.
split; first exact: id_perm.
exact: (@recommend_user_never_calls_predict rat 1 3 1 unit id
          (@ex_choice rat) (@ex_exp rat) id_perm (ex_model [:: 4; 5; 0]) 0 2
          false tt).
Defined.

Lemma recommend_user_best_n_witness :
  dict_get (train_user (data (ex_model [:: 4; 5; 0 : rat]))) 0
  = Ok [:: (2%N, 3)] /\
  (exists recs : seq (nat * rat),
     [/\ ALS_rating_recommend_user id (@ex_choice rat)
           (ex_model [:: 4; 5; 0]) 0 1 false tt = (Ok recs, tt),
         size recs = 1%N
       & forall (j : 'I_3) e,
           val j \in [:: 0%N; 1%N] -> val j \notin keys recs -> e \in recs ->
           clipped_score (ex_model [:: 4; 5; 0]) ord0 j <= e.2]).
Proof.
split; first by [].
have [u' [recs [_ er sz _ [_ best]]]] :=
  @recommend_user_best_n rat 1 3 1 unit id (@ex_choice rat) id_perm
    (ex_model [:: 4; 5; 0]) 0 [:: (2%N, 3)] 1 tt erefl isT.
have eu : u' = ord0 by rewrite [u']ord1; apply: val_inj.
by exists recs; split=> // j e jin; rewrite -eu; apply: best.
Defined.

Lemma recommend_user_negative_count_witness :
  dict_get (train_user (data (ex_model [:: 4; 5; 0 : rat]))) 0
  = Ok [:: (2%N, 3)] /\
  (exists recs : seq (nat * rat),
     ALS_rating_recommend_user id (@ex_choice rat) (ex_model [:: 4; 5; 0]) 0
       (-1) false tt = (Ok recs, tt) /\ size recs = 1%N).
Proof.
split; first by [].
have [full [recs [_ er _ _ sz]]] :=
  @recommend_user_negative_count rat 1 3 1 unit id (@ex_choice rat) id_perm
    (ex_model [:: 4; 5; 0]) 0 [:: (2%N, 3)] 0 tt erefl isT.
by exists recs.
Defined.

Lemma ALS_ranking_predict_sign_witness :
  py_in_range 1 0 /\ py_in_range 3 (-3) /\
  ALS_ranking_predict (@ex_exp rat) (ex_model [:: -1; 1; 0]) 0 (-3) = Ok 0.
Proof.
do 2![split; first by []].
have [u' [i' [_ vi ->]]] :=
  @ALS_ranking_predict_sign rat 1 3 1 (@ex_exp rat) (@ex_exp_gt0 rat)
    (@ex_exp0 rat) (@ex_exp_le rat) (ex_model [:: -1; 1; 0]) 0 (-3) isT isT.
have -> : i' = ord0 by apply: val_inj; case: vi.
by rewrite ex_dot.
Defined.

Lemma fit_keeps_rows_of_absent_entities_witness :
  exists m log,
    ALS_rating_fit (fun _ => ex_pu rat) (fun _ => ex_qi [:: 1; 1; 1])
      (ex_params rat "rating") (ex_dataset rat) 1 = Ok (m, log) /\
    row ord0 (qi m) = row ord0 (ex_qi [:: 1; 1; 1]).
Proof.
have [[m log] e] := @ALS_rating_fit_ok rat 1 3 1 (fun _ => ex_pu rat)
  (fun _ => ex_qi [:: 1; 1; 1]) (ex_params rat "rating") (ex_dataset rat) 1
  (ex_dataset_wf rat) ltr01.
exists m, log; split; first by [].
have [_ keep] := @fit_keeps_rows_of_absent_entities rat 1 3 1
  (fun _ => ex_pu rat) (fun _ => ex_qi [:: 1; 1; 1]) (ex_params rat "rating")
  (ex_dataset rat) 1 m log (or_introl e).
exact: keep.
Defined.

Lemma ALS_rating_fit_bad_neighbours_witness :
  [/\ dict_get (train_user (ex_dataset_lonely rat)) 0 = Ok [::],
      nilp ([::] : dict rat) || has (fun e => 3 <= e.1)%N ([::] : dict rat),
      (0 < n_epochs (ex_params rat "rating"))%N
    & ~~ is_ok (ALS_rating_fit (fun _ => ex_pu rat)
                  (fun _ => ex_qi [:: 1; 1; 1]) (ex_params rat "rating")
                  (ex_dataset_lonely rat) 1)].
Proof.
have [_ bad] := @ALS_rating_fit_bad_neighbours rat 1 3 1 (fun _ => ex_pu rat)
  (fun _ => ex_qi [:: 1; 1; 1]) (ex_params rat "rating")
  (ex_dataset_lonely rat) 1 0 [::] erefl isT isT.
by split.
Defined.

Lemma ALS_ranking_9090_fit_bad_neighbours_witness :
  [/\ dict_get (train_user (ex_dataset_stray rat)) 0 = Ok [:: (7%N, 3)],
      has (fun e => 3 <= e.1)%N ([:: (7%N, 3)] : dict rat),
      (0 < n_epochs (ex_params rat "ranking"))%N
    & ~~ is_ok (ALS_ranking_9090_fit (fun _ => ex_pu rat)
                  (fun _ => ex_qi [:: 1; 1; 1]) (ex_params rat "ranking")
                  (ex_dataset_stray rat) 1)].
Proof.
have [_ bad] := @ALS_ranking_9090_fit_bad_neighbours rat 1 3 1
  (fun _ => ex_pu rat) (fun _ => ex_qi [:: 1; 1; 1])
  (ex_params rat "ranking") (ex_dataset_stray rat) 1 0 [:: (7%N, 3)]
  erefl isT isT.
by split.
Defined.

Lemma ex_lonely_epoch_ok (F : realFieldType) (X : 'M[F]_(1, 1))
    (Y : 'M[F]_(3, 1)) :
  exists X' Y',
    ALS_ranking_9090_epoch 1 (ex_dataset_lonely F) (X, Y) = Ok (X', Y').
Proof.
have := @ALS_ranking_9090_solve_entity_empty_ok F 1 1 3 1
  (train_user (ex_dataset_lonely F)) Y 0 erefl isT ltr01.
rewrite /ALS_ranking_9090_epoch /= /ALS_ranking_9090_update.
by case: (ALS_ranking_9090_solve_entity _ _ _ _ _) => [ux|] //= _; eexists; eexists.
Qed.

Lemma ALS_ranking_9090_no_neighbours_zero_row_witness :
  [/\ uniq (keys (train_user (ex_dataset_lonely rat))),
      dict_get (train_user (ex_dataset_lonely rat)) 0 = Ok [::]
    & exists X' Y',
        ALS_ranking_9090_epoch 1 (ex_dataset_lonely rat)
          (ex_pu rat, ex_qi [:: 1; 1; 1]) = Ok (X', Y') /\
        row ord0 X' = 0].
Proof.
split=> //.
have [X' [Y' e]] := ex_lonely_epoch_ok (ex_pu rat) (ex_qi [:: 1; 1; 1]).
exists X', Y'; split; first by [].
have [u' _ <-] := @ALS_ranking_9090_no_neighbours_zero_row rat 1 3 1 1
  (ex_dataset_lonely rat) (ex_pu rat) X' (ex_qi [:: 1; 1; 1]) Y' 0 isT erefl e.
by congr (row _ _); rewrite [u']ord1; apply: val_inj.
Defined.

Lemma ALS_rating_update_minimises_ridge_loss_witness :
  [/\ dicts_of_dicts (ex_dataset rat), 0 <= (1 : rat)
    & exists P' Q',
        ALS_rating_epoch 1 (ex_dataset rat) (ex_pu rat, ex_qi [:: 1; 1; 1])
        = Ok (P', Q') /\
        exists (u' : 'I_1) (nb' : seq ('I_3 * rat)),
          [/\ val u' = 0%N, erase nb' = [:: (2%N, 3)]
            & forall y, ridge_loss 1 (ex_qi [:: 1; 1; 1]) nb' (row u' P')
                        <= ridge_loss 1 (ex_qi [:: 1; 1; 1]) nb' y]].
Proof.
split=> //.
have [[P' Q'] e] := @ALS_rating_epoch_ok rat 1 3 1 1 (ex_dataset rat)
  (ex_pu rat, ex_qi [:: 1; 1; 1]) (ex_dataset_wf rat) ltr01.
exists P', Q'; split; first by [].
have [users _] := @ALS_rating_update_minimises_ridge_loss rat 1 3 1 1
  (ex_dataset rat) (ex_pu rat) P' (ex_qi [:: 1; 1; 1]) Q' isT ler01 e.
by apply: users; rewrite inE.
Defined.

Lemma ALS_ranking_epoch_solves_ridge_witness :
  [/\ uniq (keys (train_user (ex_dataset rat))),
      uniq (keys (train_item (ex_dataset rat)))
    & exists P' Q',
        ALS_ranking_epoch 1 (ex_dataset rat) (ex_arrays rat)
          (ex_pu rat, ex_qi [:: 1; 1; 1]) = Ok (P', Q') /\
        exists (u' : 'I_1) (nb' : seq ('I_3 * rat)),
          [/\ val u' = 0%N, erase nb' = [:: (2%N, 3)]
            & ridge_system 1 (ex_qi [:: 1; 1; 1]) nb' (row u' P')]].
Proof.
split=> //.
have [sys tot] := @ALS_ranking_epoch_solves_ridge rat 1 3 1
  (fun _ => ex_pu rat) (fun _ => ex_qi [:: 1; 1; 1]) (ex_params rat "ranking")
  (ex_dataset rat) (ex_arrays rat) 1 (ex_pu rat) (ex_qi [:: 1; 1; 1]) isT isT.
have [[[P' Q'] e] _] := tot isT isT isT ltr01.
exists P', Q'; split; first by [].
have [users _] := sys P' Q' e.
have [u' [nb' [vu enb s _]]] := users 0%N isT.
by exists u', nb'.
Defined.

Lemma ALS_ranking_absent_entity_zero_row_witness :
  [/\ uniq (keys (train_user (ex_dataset rat))),
      0%N \in keys (train_user (ex_dataset rat)),
      0%N \notin train_user_implicit (ex_arrays_empty rat)
    & exists P' Q',
        ALS_ranking_epoch 1 (ex_dataset rat) (ex_arrays_empty rat)
          (ex_pu rat, ex_qi [:: 1; 1; 1]) = Ok (P', Q') /\
        row ord0 P' = 0].
Proof.
split=> //.
have [[P' Q'] e] := @ALS_ranking_epoch_ok rat 1 3 1 1 (ex_dataset rat)
  (ex_arrays_empty rat) (ex_pu rat, ex_qi [:: 1; 1; 1]) isT isT isT ltr01.
exists P', Q'; split; first by [].
have [u' _ <-] := @ALS_ranking_absent_entity_zero_row rat 1 3 1 1
  (ex_dataset rat) (ex_arrays_empty rat) (ex_pu rat) P' (ex_qi [:: 1; 1; 1])
  Q' 0 isT isT isT e.
by congr (row _ _); rewrite [u']ord1; apply: val_inj.
Defined.

Lemma ALS_ranking_9090_update_minimises_weighted_loss_witness :
  [/\ dicts_of_dicts (ex_dataset rat), 0 <= (1 : rat),
      nonneg_labels (train_user (ex_dataset rat)),
      nonneg_labels (train_item (ex_dataset rat))
    & exists X' Y',
        ALS_ranking_9090_epoch 1 (ex_dataset rat)
          (ex_pu rat, ex_qi [:: 1; 1; 1]) = Ok (X', Y') /\
        exists (u' : 'I_1) (nb' : seq ('I_3 * rat)),
          [/\ val u' = 0%N, erase nb' = [:: (2%N, 3)]
            & forall y, weighted_loss 1 (ex_qi [:: 1; 1; 1]) nb' (row u' X')
                        <= weighted_loss 1 (ex_qi [:: 1; 1; 1]) nb' y]].
Proof.
have [nnu nni] := ex_dataset_nonneg rat.
split=> //.
have [[X' Y'] e] := @ALS_ranking_9090_epoch_ok rat 1 3 1 1 (ex_dataset rat)
  (ex_pu rat, ex_qi [:: 1; 1; 1]) (ex_dataset_wf rat) nnu nni ltr01.
exists X', Y'; split; first by [].
have [users _] := @ALS_ranking_9090_update_minimises_weighted_loss rat 1 3 1 1
  (ex_dataset rat) (ex_pu rat) X' (ex_qi [:: 1; 1; 1]) Y' isT ler01 nnu nni e.
by apply: users; rewrite inE.
Defined.

Lemma ALS_rating_fit_forgets_initial_pu_witness :
  all (fun u => u \in keys (train_user (ex_dataset rat))) (iota 0 1) /\
  ALS_rating_fit (fun _ => 0) (fun _ => ex_qi [:: 1; 1; 1])
    (ex_params rat "rating") (ex_dataset rat) 1
  = ALS_rating_fit (fun _ => ex_pu rat) (fun _ => ex_qi [:: 1; 1; 1])
      (ex_params rat "rating") (ex_dataset rat) 1.
Proof.
split; first by [].
have [_ same] := @ALS_rating_fit_forgets_initial_pu rat 1 3 1
  (fun _ => 0) (fun _ => ex_pu rat) (fun _ => ex_qi [:: 1; 1; 1])
  (ex_params rat "rating") (ex_dataset rat) 1 0 0 (ex_qi [:: 1; 1; 1]) isT.
exact: same.
Defined.

Lemma ALS_rating_fit_reports_witness :
  exists m log,
    ALS_rating_fit (fun _ => ex_pu rat) (fun _ => ex_qi [:: 1; 1; 1])
      (Params 5 (1 : rat) "rating" 42) (ex_dataset rat) 1 = Ok (m, log) /\
    log = [:: Report_rmse 5].
Proof.
have [[m log] e] := @ALS_rating_fit_ok rat 1 3 1 (fun _ => ex_pu rat)
  (fun _ => ex_qi [:: 1; 1; 1]) (Params 5 (1 : rat) "rating" 42)
  (ex_dataset rat) 1 (ex_dataset_wf rat) ltr01.
exists m, log; split; first by [].
have [_ rating _ _] := @ALS_rating_fit_reports rat 1 3 1 (fun _ => ex_pu rat)
  (fun _ => ex_qi [:: 1; 1; 1]) (Params 5 (1 : rat) "rating" 42)
  (ex_dataset rat) 1 m log e.
exact: (rating isT erefl).
Defined.

Lemma ALS_ranking_fit_reports_witness :
  exists m log,
    ALS_ranking_9090_fit (fun _ => ex_pu rat) (fun _ => ex_qi [:: 1; 1; 1])
      (ex_params rat "ranking") (ex_dataset rat) 1 = Ok (m, log) /\
    log = [:: Report_accuracy 1].
Proof.
have [nnu nni] := ex_dataset_nonneg rat.
have [[m log] e] := @ALS_ranking_9090_fit_ok rat 1 3 1 (fun _ => ex_pu rat)
  (fun _ => ex_qi [:: 1; 1; 1]) (ex_params rat "ranking") (ex_dataset rat) 1
  (ex_dataset_wf rat) nnu nni ltr01.
exists m, log; split; first by [].
have [_ _ ranking] := @ALS_ranking_fit_reports rat 1 3 1 (fun _ => ex_pu rat)
  (fun _ => ex_qi [:: 1; 1; 1]) (ex_params rat "ranking") (ex_dataset rat)
  (ex_arrays rat) 1 m log (or_intror e).
exact: (ranking isT erefl).
Defined.
